(** * wtfis: IP enrichment and report assembly

    A shallow embedding of [wtfis/clients/ipwhois.py] and
    [wtfis/ui/view.py], and the properties of the enrichment cap, the
    resolutions panel and the two report flows.

    Python [int] is [Z], [str] is [string], [Optional[T]] is [option T],
    a [dict] with string keys is a [gmap string _].  A call that can raise
    is a computation in the monad [M] below, which threads the remote
    provider and the log of requests sent to it. *)

From stdpp Require Import gmap strings list fin_maps pretty.
From Stdlib Require Import ZArith Ascii.

Open Scope Z_scope.

(** ** Python values and exceptions *)

(** The values of a decoded JSON response. *)
#[local] Unset Elimination Schemes.
Inductive pyval :=
  | PNone
  | PBool (b : bool)
  | PInt (z : Z)
  | PStr (s : string)
  | PList (l : list pyval)
  | PObj (fields : list (string * pyval)).
#[local] Set Elimination Schemes.

Abbreviation dict := (gmap string pyval).

(** The exceptions that reach the caller of the client. *)
Inductive exn :=
  | HTTPError (status : Z)
  | ConnectionError
  | ValidationError
  | AttributeError.

(** [x is True]: identity with the [True] singleton. *)
Definition is_True (v : option pyval) : bool :=
  match v with
  | Some (PBool true) => true
  | _ => false
  end.

(** ** Models used by the client and the views *)

Module Models.

(** wtfis.models.ipwhois, as far as the code reads it. *)
Record IpWhoisConnection := {
  conn_asn : Z;
  conn_org : string;
  conn_isp : option string;
}.

Record IpWhois := {
  ip : string;
  connection : IpWhoisConnection;
  city : option string;
  region : option string;
  country : option string;
}.

(** wtfis.models.shodan, as far as the code reads it. *)
Record ShodanIp := {
  sh_asn : option string;
  sh_org : option string;
  sh_isp : option string;
  sh_city : option string;
  sh_region_name : option string;
  sh_country_name : option string;
  sh_os : option string;
  sh_tags : list string;
  sh_last_update : string;
}.

(** wtfis.models.virustotal: one historical resolution. *)
Record ResolutionAttributes := {
  ip_address : string;
  ip_address_last_analysis_stats : gmap string Z;
  date : Z;
}.

Record Resolution := { attributes : ResolutionAttributes }.

Record Meta := { count : Z }.

Record Resolutions := {
  meta : Meta;
  data : list Resolution;
}.

End Models.
Import Models.

(** ** The state-and-exception monad of the client *)

Section Client.

(** The remote provider: whatever decides the answer to a request. *)
Context {World : Type}.

(** [BaseClient._get] is not part of the sources at hand: it is taken as
    a parameter.  It answers a request path with a decoded body
    ([Optional[dict]]) or raises, and may change the provider. *)
Variable http_get : World -> string -> (exn + option dict) * World.

(** [IpWhois.parse_obj]: validation of a response body. *)
Variable parse_obj : dict -> exn + IpWhois.

Record session := {
  world : World;
  requests : list string;   (* paths handed to [_get], oldest first *)
}.

Definition M (A : Type) : Type := session -> (exn + A) * session.

Definition ret {A} (a : A) : M A := fun s => (inr a, s).

Definition raise {A} (e : exn) : M A := fun s => (inl e, s).

Definition bind {A B} (c : M A) (k : A -> M B) : M B :=
  fun s =>
    match c s with
    | (inl e, s') => (inl e, s')
    | (inr a, s') => k a s'
    end.

Notation "x <- c ;; k" := (bind c (fun x => k))
  (at level 100, c at next level, right associativity).

Definition _get (path : string) : M (option dict) :=
  fun s =>
    let (r, w) := http_get (world s) path in
    (r, {| world := w; requests := requests s ++ [path] |}).

(** ** IpWhoisClient *)

Definition baseurl : string := "https://ipwho.is".

(** [get_ipwhois]: [result.get] on [None] raises [AttributeError]; the
    condition of the conditional expression is evaluated first. *)
Definition get_ipwhois (ip : string) : M (option IpWhois) :=
  result <- _get ("/" +:+ ip) ;;
  match result with
  | None => raise AttributeError
  | Some d =>
      if is_True (d !! "success") then
        match parse_obj d with
        | inl e => raise e
        | inr w => ret (Some w)
        end
      else ret None
  end.

(** [if ipwhois: ipwhois_map[ipwhois.ip] = ipwhois].  A model instance
    is always truthy, so the test is on [None] alone. *)
Definition store (ipwhois_map : gmap string IpWhois) (ipwhois : option IpWhois)
  : gmap string IpWhois :=
  match ipwhois with
  | Some w => <[ip w := w]> ipwhois_map
  | None => ipwhois_map
  end.

(** The loop of [bulk_get_ipwhois] over [enumerate(resolutions.data)],
    from index [idx] on. *)
Fixpoint bulk_loop (idx : Z) (rest : list Resolution) (max_ips_to_enrich : Z)
    (ipwhois_map : gmap string IpWhois) : M (gmap string IpWhois) :=
  match rest with
  | [] => ret ipwhois_map
  | r :: rest' =>
      if decide (idx = max_ips_to_enrich) then ret ipwhois_map
      else
        ipwhois <- get_ipwhois (ip_address (attributes r)) ;;
        bulk_loop (idx + 1) rest' max_ips_to_enrich (store ipwhois_map ipwhois)
  end.

Definition bulk_get_ipwhois (resolutions : Resolutions) (max_ips_to_enrich : Z)
  : M (gmap string IpWhois) :=
  bulk_loop 0 (data resolutions) max_ips_to_enrich ∅.

Definition single_get_ipwhois (ip : string) : M (gmap string IpWhois) :=
  ipwhois <- get_ipwhois ip ;;
  ret (match ipwhois with
       | Some w => <[ip := w]> (∅ : gmap string IpWhois)
       | None => ∅
       end).

(** ** The lookups of a run, one after the other *)

(** [lookups ips]: [get_ipwhois] on each address in turn, stopping at
    the first one that raises. *)
Fixpoint lookups (ips : list string) : M (list (option IpWhois)) :=
  match ips with
  | [] => ret []
  | i :: ips' =>
      o <- get_ipwhois i ;;
      os <- lookups ips' ;;
      ret (o :: os)
  end.

(** The addresses [bulk_get_ipwhois] asks about: those of the
    resolutions before the cap. *)
Definition capped (resolutions : Resolutions) (k : Z) : list string :=
  (fun r => ip_address (attributes r)) <$> take (Z.to_nat k) (data resolutions).

(** The records of the lookups that succeeded. *)
Definition found (outcomes : list (option IpWhois)) : list IpWhois :=
  omap id outcomes.

(** The addresses whose lookup succeeded. *)
Fixpoint answered (ips : list string) (outcomes : list (option IpWhois))
  : list string :=
  match ips, outcomes with
  | i :: ips', Some _ :: outcomes' => i :: answered ips' outcomes'
  | _ :: ips', None :: outcomes' => answered ips' outcomes'
  | _, _ => []
  end.

End Client.

(** ** The report model *)

(** [rich.text.Text], as far as the views build it themselves. *)
Record Text := {
  plain : string;
  justify : option string;
  style : option string;
}.

(** A label or a value of a table row: [Union[str, Text]]. *)
Inductive cell :=
  | CStr (s : string)
  | CText (t : Text).

(** An argument of [_gen_table]: [(field, value)], the value possibly
    [None]. *)
Definition row : Type := cell * option cell.

(** A rendered table: the rows that made it to the grid. *)
Definition table : Type := list (cell * cell).

(** Modelled from the spec: [BaseView._gen_info] and [_gen_group] are not
    among the sources.  A report section is "an ordered (heading,
    field-list) structure"; a group keeps its items in order. *)
Record Info := {
  info_body : table;
  info_heading : Text;
}.

(** What a panel's content list holds: an entry, a plain string or a
    [Text]. *)
Inductive renderable :=
  | RInfo (i : Info)
  | RStr (s : string)
  | RText (t : Text).

Inductive panel_body :=
  | BInfo (i : Info)
  | BGroup (content : list renderable).

(** Modelled from the spec: [BaseView._gen_panel] is not among the
    sources; a panel is a titled section. *)
Record Panel := {
  title : string;
  body : panel_body;
}.

Definition _gen_info (body : table) (heading : Text) : Info :=
  {| info_body := body; info_heading := heading |}.

Definition _gen_group (content : list renderable) : panel_body := BGroup content.

Definition _gen_panel (title : string) (body : panel_body) : Panel :=
  {| title := title; body := body |}.

(** Modelled from the spec: [BaseView._gen_table] is not among the
    sources.  "Fields are (label, value-or-absent) pairs, where absent
    fields are omitted rather than rendered blank." *)
Definition _gen_table (params : list row) : table :=
  omap (fun '(field, value) => (fun v => (field, v)) <$> value) params.

(** ** wtfis.utils *)

(** Modelled from the spec: [wtfis.utils.smart_join] is not among the
    sources.  "Skip any absent component, join present components with a
    fixed separator, and yield 'no value' only if all components are
    absent."  The separator is the one of the spec's example,
    [join("a","b","c") == "a, b, c"]; a [style], when given, dresses the
    joined text. *)
Definition separator : string := ", ".

Definition smart_join (style : option string) (items : list (option string))
  : option cell :=
  match omap id items with
  | [] => None
  | present =>
      let joined := String.concat separator present in
      Some (match style with
            | None => CStr joined
            | Some st => CText {| plain := joined; justify := None; style := Some st |}
            end)
  end.

(** ** Python strings *)

(** [str(x)] of an [Optional[str]], as an f-string formats it. *)
Definition py_str (x : option string) : string :=
  match x with
  | Some s => s
  | None => "None"
  end.

(** [s.replace(old, new)] for a non-empty [old]: occurrences are replaced
    from the left and do not overlap; [skip] characters of a replaced
    occurrence are still to be dropped. *)
Fixpoint replace_from (old new : string) (skip : nat) (s : string) : string :=
  match s with
  | EmptyString => EmptyString
  | String c s' =>
      match skip with
      | S k => replace_from old new k s'
      | O =>
          if String.prefix old s
          then new +:+ replace_from old new (Nat.pred (String.length old)) s'
          else String c (replace_from old new O s')
      end
  end.

Definition replace (old new s : string) : string := replace_from old new O s.

(** Truthiness of an [Optional[str]]. *)
Definition truthy (x : option string) : bool :=
  match x with
  | Some (String _ _) => true
  | _ => false
  end.

(** ** Entities and the enrichment map *)

Module Entities.

Record DomainAttributes := {
  last_analysis_stats : gmap string Z;
  reputation : Z;
  popularity_ranks : gmap string Z;
  categories : list string;
  last_modification_date : option Z;
  last_dns_records_date : option Z;
}.

Record Domain := {
  id_ : string;
  domain_attributes : DomainAttributes;
}.

Record IpAttributes := {
  ip_last_analysis_stats : gmap string Z;
  ip_reputation : Z;
  ip_last_modification_date : option Z;
}.

Record IpAddress := {
  ip_id_ : string;
  ip_attributes : IpAttributes;
}.

(** [self.entity] of a view. *)
Inductive entity :=
  | EDomain (d : Domain)
  | EIpAddress (a : IpAddress).

(** One enrichment record: the result of [isinstance(enrich, IpWhois)]
    is the constructor. *)
Inductive enrichment :=
  | EIpWhois (w : IpWhois)
  | EShodan (s : ShodanIp).

(** [Union[IpWhoisMap, ShodanIpMap]]: one variant per run. *)
Inductive ip_enrich_map :=
  | IpWhoisMap (root : gmap string IpWhois)
  | ShodanIpMap (root : gmap string ShodanIp).

End Entities.
Import Entities.

(** Modelled from the spec: [BaseView._get_ip_enrichment] is not among the
    sources.  "Look up the resolution's IP in the EnrichmentMap"; "absence
    means no enrichment available, never an error for that IP". *)
Definition _get_ip_enrichment (ip_enrich : ip_enrich_map) (ip : string)
  : option enrichment :=
  match ip_enrich with
  | IpWhoisMap root => EIpWhois <$> root !! ip
  | ShodanIpMap root => EShodan <$> root !! ip
  end.

(** ** BaseView: what the views inherit *)

(** The helpers of [wtfis.ui.base.BaseView] and of [wtfis.utils] that
    produce the text of a value.  They are not among the sources and no
    property below depends on what they print: they are parameters. *)
Class BaseView := {
  theme_tags : string;
  theme_footer : string;
  vt_gui_baseurl_domain : string;
  vt_gui_baseurl_ip : string;
  shodan_gui_baseurl : string;
  _gen_heading_text : string -> string -> Text;
  _gen_linked_field_name : string -> string -> Text;
  _gen_vt_analysis_stats : gmap string Z -> option (list string) -> Text;
  _gen_vt_reputation : Z -> Text;
  _gen_vt_popularity : gmap string Z -> option Text;
  _gen_shodan_services : ShodanIp -> option cell;
  _vendors_who_flagged_malicious : entity -> list string;
  iso_date : pyval -> option string;
}.

(** ** DomainView and IpAddressView *)

Record DomainView := {
  dv_entity : Domain;
  dv_resolutions : option Resolutions;
  dv_whois_panel : option Panel;   (* what [self.whois_panel()] returns *)
  dv_ip_enrich : ip_enrich_map;
  max_resolutions : Z;
}.

Record IpAddressView := {
  iv_entity : IpAddress;
  iv_whois_panel : option Panel;   (* what [self.whois_panel()] returns *)
  iv_ip_enrich : ip_enrich_map;
}.

(** What is handed to [console.print]. *)
Inductive printed :=
  | PrGroup (items : list (string + Panel))
  | PrPadding (columns : list Panel) (pad : Z * Z).

Definition opt_int (x : option Z) : pyval :=
  match x with
  | Some z => PInt z
  | None => PNone
  end.

Section Views.

Context `{BaseView}.

(** The rows a view adds for an enrichment record.  The block is the
    same in [resolutions_panel] and in [ip_panel], up to the address
    [ip] of the Shodan link. *)
Definition enrich_rows (ip : string) (enrich : option enrichment) : list row :=
  match enrich with
  | None => []
  | Some (EIpWhois w) =>
      [ (CStr "ASN:",
         Some (CStr (pretty (conn_asn (connection w)) +:+ " ("
                     +:+ conn_org (connection w) +:+ ")")));
        (CStr "ISP:", CStr <$> conn_isp (connection w));
        (CStr "Location:", smart_join None [city w; region w; country w]) ]
  | Some (EShodan s) =>
      let asn :=
        if truthy (sh_asn s)
        then Some (CStr (replace "AS" "" (py_str (sh_asn s)) +:+ " ("
                         +:+ py_str (sh_org s) +:+ ")"))
        else None in
      let tags :=
        match sh_tags s with
        | [] => None
        | _ => smart_join (Some theme_tags) (Some <$> sh_tags s)
        end in
      let services_linked :=
        _gen_linked_field_name "Services" (shodan_gui_baseurl +:+ "/" +:+ ip) in
      [ (CStr "ASN:", asn);
        (CStr "ISP:", CStr <$> sh_isp s);
        (CStr "Location:",
         smart_join None [sh_city s; sh_region_name s; sh_country_name s]);
        (CStr "OS:", CStr <$> sh_os s);
        (CText services_linked, _gen_shodan_services s);
        (CStr "Tags:", tags);
        (CStr "Last Scan:",
         CStr <$> iso_date (PStr (sh_last_update s +:+ "+00:00"))) ]
  end.

(** *** DomainView *)

Definition domain_panel (v : DomainView) : Panel :=
  let attributes := domain_attributes (dv_entity v) in
  let analysis :=
    _gen_vt_analysis_stats (last_analysis_stats attributes)
      (Some (_vendors_who_flagged_malicious (EDomain (dv_entity v)))) in
  let reputation := _gen_vt_reputation (reputation attributes) in
  let popularity := _gen_vt_popularity (popularity_ranks attributes) in
  let categories :=
    match categories attributes with
    | [] => None
    | cs => smart_join (Some theme_tags) (Some <$> cs)
    end in
  let heading :=
    _gen_heading_text (id_ (dv_entity v))
      (vt_gui_baseurl_domain +:+ "/" +:+ id_ (dv_entity v)) in
  let body := _gen_table
    [ (CStr "Analysis:", Some (CText analysis));
      (CStr "Reputation:", Some (CText reputation));
      (CStr "Popularity:", CText <$> popularity);
      (CStr "Categories:", categories);
      (CStr "Last Modified:",
       CStr <$> iso_date (opt_int (last_modification_date attributes)));
      (CStr "Last Seen:",
       CStr <$> iso_date (opt_int (last_dns_records_date attributes))) ] in
  _gen_panel "virustotal" (BInfo (_gen_info body heading)).

(** The arguments of [_gen_table] for one resolution. *)
Definition resolution_data (ip_enrich : ip_enrich_map) (r : Resolution) : list row :=
  let attributes := attributes r in
  let analysis :=
    _gen_vt_analysis_stats (ip_address_last_analysis_stats attributes) None in
  let data :=
    [ (CStr "Analysis:", Some (CText analysis));
      (CStr "Resolved:", CStr <$> iso_date (PInt (date attributes))) ] in
  let enrich := _get_ip_enrichment ip_enrich (ip_address attributes) in
  data ++ enrich_rows (ip_address attributes) enrich.

(** The entry appended to [content] for one resolution. *)
Definition resolution_info (ip_enrich : ip_enrich_map) (r : Resolution) : Info :=
  let heading :=
    _gen_heading_text (ip_address (attributes r))
      (vt_gui_baseurl_ip +:+ "/" +:+ ip_address (attributes r)) in
  let body := _gen_table (resolution_data ip_enrich r) in
  _gen_info body heading.

(** The loop of [resolutions_panel] over [enumerate(self.resolutions.data)],
    from index [idx] on; [len] is [len(self.resolutions.data)]. *)
Fixpoint resolutions_loop (v : DomainView) (len : Z) (idx : Z)
    (rest : list Resolution) (content : list renderable) : list renderable :=
  match rest with
  | [] => content
  | r :: rest' =>
      if decide (idx = max_resolutions v) then content
      else
        let content := content ++ [RInfo (resolution_info (dv_ip_enrich v) r)] in
        let content :=
          if decide (idx < max_resolutions v - 1 ∧ idx < len - 1)
          then content ++ [RStr ""]
          else content in
        resolutions_loop v len (idx + 1) rest' content
  end.

(** The text about how many more addresses were not shown. *)
Definition more_text (n : Z) : Text :=
  {| plain := String "010"%char "+" +:+ pretty n +:+ " more";
     justify := Some "center";
     style := Some theme_footer |}.

(** [content] at the end of [resolutions_panel], for resolutions that
    are there. *)
Definition resolutions_content (v : DomainView) (res : Resolutions) : list renderable :=
  let content :=
    resolutions_loop v (Z.of_nat (length (data res))) 0 (data res) [] in
  if decide (max_resolutions v < count (meta res))
  then content ++ [RText (more_text (count (meta res) - max_resolutions v))]
  else content.

(** [if not self.resolutions]: a model instance is truthy, so only
    [None] is skipped. *)
Definition resolutions_panel (v : DomainView) : option Panel :=
  match dv_resolutions v with
  | None => None
  | Some res =>
      match resolutions_content v res with
      | [] => None
      | content => Some (_gen_panel "resolutions" (_gen_group content))
      end
  end.

(** [[i for i in (...) if i is not None]]. *)
Definition not_None {A} (candidates : list (option A)) : list A :=
  omap id candidates.

Definition layout (one_column : bool) (renderables : list Panel) : printed :=
  if one_column
  then PrGroup (inl "" :: (inr <$> renderables))
  else PrPadding renderables (1, 0).

Definition domain_renderables (v : DomainView) : list Panel :=
  not_None [ Some (domain_panel v); resolutions_panel v; dv_whois_panel v ].

Definition domain_print (v : DomainView) (one_column : bool) : printed :=
  layout one_column (domain_renderables v).

(** *** IpAddressView *)

Definition ip_data (v : IpAddressView) : list row :=
  let attributes := ip_attributes (iv_entity v) in
  let analysis :=
    _gen_vt_analysis_stats (ip_last_analysis_stats attributes)
      (Some (_vendors_who_flagged_malicious (EIpAddress (iv_entity v)))) in
  let reputation := _gen_vt_reputation (ip_reputation attributes) in
  let data :=
    [ (CStr "Analysis:", Some (CText analysis));
      (CStr "Reputation:", Some (CText reputation));
      (CStr "Last Modified:",
       CStr <$> iso_date (opt_int (ip_last_modification_date attributes))) ] in
  let enrich := _get_ip_enrichment (iv_ip_enrich v) (ip_id_ (iv_entity v)) in
  data ++ enrich_rows (ip_id_ (iv_entity v)) enrich.

Definition ip_panel (v : IpAddressView) : Panel :=
  let heading :=
    _gen_heading_text (ip_id_ (iv_entity v))
      (vt_gui_baseurl_ip +:+ "/" +:+ ip_id_ (iv_entity v)) in
  let body := _gen_table (ip_data v) in
  _gen_panel "ip" (BInfo (_gen_info body heading)).

Definition ip_renderables (v : IpAddressView) : list Panel :=
  not_None [ Some (ip_panel v); iv_whois_panel v ].

Definition ip_print (v : IpAddressView) (one_column : bool) : printed :=
  layout one_column (ip_renderables v).

End Views.

(** ** Reading a rendered panel *)

(** The resolution entries, the plain strings and the texts of a content
    list, each in the order of the list. *)
Definition entries (content : list renderable) : list Info :=
  omap (fun x => match x with RInfo i => Some i | _ => None end) content.

Definition separators (content : list renderable) : list string :=
  omap (fun x => match x with RStr s => Some s | _ => None end) content.

Definition markers (content : list renderable) : list Text :=
  omap (fun x => match x with RText t => Some t | _ => None end) content.

(** [x1; sep; x2; sep; ...; xn]: [sep] between neighbours only. *)
Fixpoint intersperse {A} (sep : A) (l : list A) : list A :=
  match l with
  | [] => []
  | x :: l' =>
      match l' with
      | [] => [x]
      | _ :: _ => x :: sep :: intersperse sep l'
      end
  end.

(** The field labels of a panel, over all of its tables. *)
Definition panel_labels (p : Panel) : list cell :=
  match body p with
  | BInfo i => fst <$> info_body i
  | BGroup content => i ← entries content; fst <$> info_body i
  end.

Section Labels.

Context `{BaseView}.

(** The labels of the fields only a Shodan record has; the link of the
    services label is built for the address [ip]. *)
Definition variant_only_labels (ip : string) : list cell :=
  [ CStr "OS:";
    CText (_gen_linked_field_name "Services" (shodan_gui_baseurl +:+ "/" +:+ ip));
    CStr "Tags:";
    CStr "Last Scan:" ].

(** The labels of all enrichment fields. *)
Definition enrichment_labels (ip : string) : list cell :=
  [ CStr "ASN:"; CStr "ISP:"; CStr "Location:" ] ++ variant_only_labels ip.

(** The two rows every resolution entry is built from. *)
Definition base_rows (r : Resolution) : list row :=
  [ (CStr "Analysis:",
     Some (CText (_gen_vt_analysis_stats
                    (ip_address_last_analysis_stats (attributes r)) None)));
    (CStr "Resolved:", CStr <$> iso_date (PInt (date (attributes r)))) ].

End Labels.

(** The labels a view writes as plain strings when the record, if any, is
    an [IpWhois]. *)
Definition geolocation_labels : list cell :=
  CStr <$> [ "Analysis:"; "Reputation:"; "Popularity:"; "Categories:";
             "Last Modified:"; "Last Seen:"; "Resolved:";
             "ASN:"; "ISP:"; "Location:" ].

(** ** The resolutions panel with helpers that may raise *)

(** In [Views] the helpers of [BaseView] are functions, so nothing there
    can fail.  Here the same code of [resolutions_panel] is read with each
    helper call as one that returns or raises, in the order the source
    makes the calls.  [_get_ip_enrichment], [_gen_table], [_gen_info],
    [_gen_group], [_gen_panel] and [smart_join] stay as modelled above. *)
Module Raising.

Class Helpers := {
  theme_tags : string;
  theme_footer : string;
  vt_gui_baseurl_ip : string;
  shodan_gui_baseurl : string;
  _gen_heading_text : string -> string -> exn + Text;
  _gen_linked_field_name : string -> string -> exn + Text;
  _gen_vt_analysis_stats : gmap string Z -> option (list string) -> exn + Text;
  _gen_shodan_services : ShodanIp -> exn + option cell;
  iso_date : pyval -> exn + option string;
}.

Definition and_then {A B} (c : exn + A) (k : A -> exn + B) : exn + B :=
  match c with
  | inl e => inl e
  | inr a => k a
  end.

Notation "x <- c ;; k" := (and_then c (fun x => k))
  (at level 100, c at next level, right associativity).

Section Panel.

Context {helpers : Helpers}.

(** Lines 104-128: the rows added for an enrichment record.  Only the
    Shodan branch calls helpers: the linked field name, then, while the
    list is built, the services and the date of the last scan. *)
Definition enrich_rows (ip : string) (enrich : option enrichment)
  : exn + list row :=
  match enrich with
  | None => inr []
  | Some (EIpWhois w) =>
      inr [ (CStr "ASN:",
             Some (CStr (pretty (conn_asn (connection w)) +:+ " ("
                         +:+ conn_org (connection w) +:+ ")")));
            (CStr "ISP:", CStr <$> conn_isp (connection w));
            (CStr "Location:", smart_join None [city w; region w; country w]) ]
  | Some (EShodan s) =>
      let asn :=
        if truthy (sh_asn s)
        then Some (CStr (replace "AS" "" (py_str (sh_asn s)) +:+ " ("
                         +:+ py_str (sh_org s) +:+ ")"))
        else None in
      let tags :=
        match sh_tags s with
        | [] => None
        | _ => smart_join (Some theme_tags) (Some <$> sh_tags s)
        end in
      services_linked <-
        _gen_linked_field_name "Services" (shodan_gui_baseurl +:+ "/" +:+ ip) ;;
      services <- _gen_shodan_services s ;;
      last_scan <- iso_date (PStr (sh_last_update s +:+ "+00:00")) ;;
      inr [ (CStr "ASN:", asn);
            (CStr "ISP:", CStr <$> sh_isp s);
            (CStr "Location:",
             smart_join None [sh_city s; sh_region_name s; sh_country_name s]);
            (CStr "OS:", CStr <$> sh_os s);
            (CText services_linked, services);
            (CStr "Tags:", tags);
            (CStr "Last Scan:", CStr <$> last_scan) ]
  end.

(** Lines 86-142: the entry of one resolution.  The analysis is computed
    first, then the heading, then the resolved date; the enrichment is
    looked up after them. *)
Definition resolution_info (ip_enrich : ip_enrich_map) (r : Resolution)
  : exn + Info :=
  let attributes := attributes r in
  analysis <-
    _gen_vt_analysis_stats (ip_address_last_analysis_stats attributes) None ;;
  heading <-
    _gen_heading_text (ip_address attributes)
      (vt_gui_baseurl_ip +:+ "/" +:+ ip_address attributes) ;;
  resolved <- iso_date (PInt (date attributes)) ;;
  let data :=
    [ (CStr "Analysis:", Some (CText analysis));
      (CStr "Resolved:", CStr <$> resolved) ] in
  let enrich := _get_ip_enrichment ip_enrich (ip_address attributes) in
  rows <- enrich_rows (ip_address attributes) enrich ;;
  inr (_gen_info (_gen_table (data ++ rows)) heading).

(** Lines 83-149: the loop, from index [idx] on. *)
Fixpoint resolutions_loop (v : DomainView) (len : Z) (idx : Z)
    (rest : list Resolution) (content : list renderable)
  : exn + list renderable :=
  match rest with
  | [] => inr content
  | r :: rest' =>
      if decide (idx = max_resolutions v) then inr content
      else
        info <- resolution_info (dv_ip_enrich v) r ;;
        let content := content ++ [RInfo info] in
        let content :=
          if decide (idx < max_resolutions v - 1 ∧ idx < len - 1)
          then content ++ [RStr ""]
          else content in
        resolutions_loop v len (idx + 1) rest' content
  end.

Definition more_text (n : Z) : Text :=
  {| plain := String "010"%char "+" +:+ pretty n +:+ " more";
     justify := Some "center";
     style := Some theme_footer |}.

Definition resolutions_content (v : DomainView) (res : Resolutions)
  : exn + list renderable :=
  content <-
    resolutions_loop v (Z.of_nat (length (data res))) 0 (data res) [] ;;
  inr (if decide (max_resolutions v < count (meta res))
       then content ++ [RText (more_text (count (meta res) - max_resolutions v))]
       else content).

Definition resolutions_panel (v : DomainView) : exn + option Panel :=
  match dv_resolutions v with
  | None => inr None
  | Some res =>
      content <- resolutions_content v res ;;
      inr (match content with
           | [] => None
           | _ => Some (_gen_panel "resolutions" (_gen_group content))
           end)
  end.

End Panel.

End Raising.

(** Helpers that never raise, from the helpers of [Views]. *)
Definition never_raising (B : BaseView) : Raising.Helpers :=
  {| Raising.theme_tags := theme_tags;
     Raising.theme_footer := theme_footer;
     Raising.vt_gui_baseurl_ip := vt_gui_baseurl_ip;
     Raising.shodan_gui_baseurl := shodan_gui_baseurl;
     Raising._gen_heading_text := fun heading link => inr (_gen_heading_text heading link);
     Raising._gen_linked_field_name := fun name link =>
       inr (_gen_linked_field_name name link);
     Raising._gen_vt_analysis_stats := fun stats vendors =>
       inr (_gen_vt_analysis_stats stats vendors);
     Raising._gen_shodan_services := fun s => inr (_gen_shodan_services s);
     Raising.iso_date := fun ts => inr (iso_date ts) |}.

(** ** Sample providers, resolutions and views *)

Module Sample.

(** A provider that answers from a fixed table of request paths and
    refuses the connection for any other path. *)
Definition table_get (answers : list (string * (exn + option dict)))
    (w : unit) (path : string) : (exn + option dict) * unit :=
  match list_find (fun a => fst a = path) answers with
  | Some (_, (_, r)) => (r, w)
  | None => (inl ConnectionError, w)
  end.

Definition str_field (d : dict) (k : string) : option string :=
  match d !! k with
  | Some (PStr s) => Some s
  | _ => None
  end.

(** A validation that asks for the [ip] field only. *)
Definition parse_ip_only (d : dict) : exn + IpWhois :=
  match str_field d "ip" with
  | Some i =>
      inr {| ip := i;
             connection := {| conn_asn := 13335; conn_org := "Example Net";
                              conn_isp := str_field d "isp" |};
             city := str_field d "city";
             region := str_field d "region";
             country := str_field d "country" |}
  | None => inl ValidationError
  end.

(** The record [parse_ip_only] reads from [success_body i]. *)
Definition record_of (i : string) : IpWhois :=
  {| ip := i;
     connection := {| conn_asn := 13335; conn_org := "Example Net";
                      conn_isp := None |};
     city := None;
     region := None;
     country := Some "NL" |}.

Definition success_body (i : string) : dict :=
  <["success" := PBool true]> (<["ip" := PStr i]> (<["country" := PStr "NL"]> ∅)).

Definition no_data_body : dict :=
  <["success" := PBool false]> (<["message" := PStr "Invalid IP address"]> ∅).

Definition start : @session unit := {| world := (); requests := [] |}.

Definition resolution (i : string) (d : Z) : Resolution :=
  {| attributes := {| ip_address := i;
                      ip_address_last_analysis_stats := <["malicious" := 0]> ∅;
                      date := d |} |}.

Definition two_resolutions : Resolutions :=
  {| meta := {| count := 2 |};
     data := [resolution "1.1.1.1" 1700000000; resolution "2.2.2.2" 1600000000] |}.

(** The provider answers the query about 1.1.1.1 with a record whose
    [ip] is 2.2.2.2. *)
Definition misnamed : list (string * (exn + option dict)) :=
  [ ("/1.1.1.1", inr (Some (success_body "2.2.2.2")));
    ("/2.2.2.2", inr (Some (success_body "2.2.2.2"))) ].

(** The provider echoes the address it is asked about, and has no data
    on 2.2.2.2. *)
Definition echoing : list (string * (exn + option dict)) :=
  [ ("/1.1.1.1", inr (Some (success_body "1.1.1.1")));
    ("/2.2.2.2", inr (Some no_data_body)) ].

(** The connection fails for 1.1.1.1 only. *)
Definition failing_first : list (string * (exn + option dict)) :=
  [ ("/1.1.1.1", inl ConnectionError);
    ("/2.2.2.2", inr (Some (success_body "2.2.2.2"))) ].

(** Helpers that print their argument plainly. *)
Definition text (s : string) : Text :=
  {| plain := s; justify := None; style := None |}.

#[export] Instance plain_view : BaseView := {|
  theme_tags := "bright_white on black";
  theme_footer := "cyan";
  vt_gui_baseurl_domain := "https://virustotal.com/gui/domain";
  vt_gui_baseurl_ip := "https://virustotal.com/gui/ip-address";
  shodan_gui_baseurl := "https://www.shodan.io/host";
  _gen_heading_text := fun heading _ => text heading;
  _gen_linked_field_name := fun name _ => text (name +:+ ":");
  _gen_vt_analysis_stats := fun stats _ =>
    text (pretty (default 0 (stats !! "malicious")) +:+ " malicious");
  _gen_vt_reputation := fun r => text (pretty r);
  _gen_vt_popularity := fun _ => None;
  _gen_shodan_services := fun _ => None;
  _vendors_who_flagged_malicious := fun _ => [];
  iso_date := fun ts =>
    match ts with
    | PInt z => Some (pretty z)
    | PStr s => Some s
    | _ => None
    end;
|}.

Definition example_domain : Domain :=
  {| id_ := "example.com";
     domain_attributes :=
       {| last_analysis_stats := <["malicious" := 0]> ∅;
          reputation := 0;
          popularity_ranks := ∅;
          categories := [];
          last_modification_date := Some 1700000000;
          last_dns_records_date := None |} |}.

Definition domain_view (enrich : ip_enrich_map) (m : Z) : DomainView :=
  {| dv_entity := example_domain;
     dv_resolutions := Some two_resolutions;
     dv_whois_panel := None;
     dv_ip_enrich := enrich;
     max_resolutions := m |}.

Definition ip_view (enrich : ip_enrich_map) : IpAddressView :=
  {| iv_entity :=
       {| ip_id_ := "1.1.1.1";
          ip_attributes :=
            {| ip_last_analysis_stats := <["malicious" := 0]> ∅;
               ip_reputation := 0;
               ip_last_modification_date := None |} |};
     iv_whois_panel := None;
     iv_ip_enrich := enrich |}.

(** Two queries answered with records of one and the same [ip], told
    apart by their [isp]. *)
Definition body_with_isp (i isp : string) : dict :=
  <["isp" := PStr isp]> (success_body i).

Definition record_with_isp (i isp : string) : IpWhois :=
  {| ip := i;
     connection := {| conn_asn := 13335; conn_org := "Example Net";
                      conn_isp := Some isp |};
     city := None;
     region := None;
     country := Some "NL" |}.

Definition colliding : list (string * (exn + option dict)) :=
  [ ("/1.1.1.1", inr (Some (body_with_isp "9.9.9.9" "First")));
    ("/2.2.2.2", inr (Some (body_with_isp "9.9.9.9" "Second"))) ].

(** Both addresses are echoed. *)
Definition echoing_both : list (string * (exn + option dict)) :=
  [ ("/1.1.1.1", inr (Some (success_body "1.1.1.1")));
    ("/2.2.2.2", inr (Some (success_body "2.2.2.2"))) ].

(** The body for 1.1.1.1 says [success] and lacks the [ip] field. *)
Definition malformed_body : dict := <["success" := PBool true]> ∅.

Definition malformed_first : list (string * (exn + option dict)) :=
  [ ("/1.1.1.1", inr (Some malformed_body));
    ("/2.2.2.2", inr (Some (success_body "2.2.2.2"))) ].

(** A body whose [success] is the number 1, not [True]. *)
Definition truthy_body : dict := <["success" := PInt 1]> (<["ip" := PStr "1.1.1.1"]> ∅).

Definition one_resolution : Resolutions :=
  {| meta := {| count := 1 |};
     data := [resolution "1.1.1.1" 1700000000] |}.

(** A Shodan record without tags and without an ASN. *)
Definition bare_host : ShodanIp :=
  {| sh_asn := None;
     sh_org := None;
     sh_isp := Some "Example ISP";
     sh_city := None;
     sh_region_name := None;
     sh_country_name := Some "Netherlands";
     sh_os := None;
     sh_tags := [];
     sh_last_update := "2022-08-21T07:21:05" |}.

(** Five resolutions on record, two of them fetched. *)
Definition two_of_five : Resolutions :=
  {| meta := {| count := 5 |};
     data := [resolution "1.1.1.1" 1700000000; resolution "2.2.2.2" 1600000000] |}.

(** Helpers of which those that only a Shodan record needs raise. *)
Definition geolocation_helpers : Raising.Helpers :=
  {| Raising.theme_tags := "bright_white on black";
     Raising.theme_footer := "cyan";
     Raising.vt_gui_baseurl_ip := "https://virustotal.com/gui/ip-address";
     Raising.shodan_gui_baseurl := "https://www.shodan.io/host";
     Raising._gen_heading_text := fun heading _ => inr (text heading);
     Raising._gen_linked_field_name := fun _ _ => inl AttributeError;
     Raising._gen_vt_analysis_stats := fun stats _ =>
       inr (text (pretty (default 0 (stats !! "malicious")) +:+ " malicious"));
     Raising._gen_shodan_services := fun _ => inl AttributeError;
     Raising.iso_date := fun ts =>
       match ts with
       | PInt z => inr (Some (pretty z))
       | _ => inl ValidationError
       end |}.

Definition view_of (res : Resolutions) (enrich : ip_enrich_map) (m : Z) : DomainView :=
  {| dv_entity := example_domain;
     dv_resolutions := Some res;
     dv_whois_panel := None;
     dv_ip_enrich := enrich;
     max_resolutions := m |}.

End Sample.

(** * Properties of the client *)

Section ClientFacts.

Context {World : Type}.
Variable http_get : World -> string -> (exn + option dict) * World.
Variable parse_obj : dict -> exn + IpWhois.

Local Abbreviation get_one := (get_ipwhois http_get parse_obj).
Local Abbreviation run := (lookups http_get parse_obj).
Local Abbreviation loop := (bulk_loop http_get parse_obj).
Local Abbreviation bulk := (bulk_get_ipwhois http_get parse_obj).
Local Abbreviation single := (single_get_ipwhois http_get parse_obj).
Local Abbreviation path := (fun i : string => "/" +:+ i).
Local Abbreviation address := (fun r : Resolution => ip_address (attributes r)).

Implicit Types (s : @session World) (m : gmap string IpWhois).

(** One lookup sends one request, whatever comes back. *)
Lemma get_ipwhois_requests i s r s' :
  get_one i s = (r, s') -> requests s' = requests s ++ [path i].
Proof.
  unfold get_ipwhois, bind, _get.
  destruct (http_get (world s) (path i)) as [[e | [d |]] w]; simpl.
  - intros [= <- <-]; reflexivity.
  - destruct (is_True (d !! "success")); [destruct (parse_obj d) |];
      intros [= <- <-]; reflexivity.
  - intros [= <- <-]; reflexivity.
Qed.

(** A transport error of [_get] is the error of the lookup. *)
Lemma get_ipwhois_transport_error i s e w :
  http_get (world s) (path i) = (inl e, w) ->
  get_one i s = (inl e, {| world := w; requests := requests s ++ [path i] |}).
Proof. intros E. unfold get_ipwhois, bind, _get. rewrite E. reflexivity. Qed.

(** A body whose [success] is not [True] is "no data". *)
Lemma get_ipwhois_no_data i s d w :
  http_get (world s) (path i) = (inr (Some d), w) ->
  is_True (d !! "success") = false ->
  get_one i s = (inr None, {| world := w; requests := requests s ++ [path i] |}).
Proof.
  intros E F. unfold get_ipwhois, bind, _get. rewrite E. simpl. rewrite F.
  reflexivity.
Qed.

Lemma lookups_cons i ips s :
  run (i :: ips) s =
  match get_one i s with
  | (inl e, s1) => (inl e, s1)
  | (inr o, s1) =>
      match run ips s1 with
      | (inl e, s2) => (inl e, s2)
      | (inr os, s2) => (inr (o :: os), s2)
      end
  end.
Proof.
  simpl. unfold bind at 1. destruct (get_one i s) as [[e | o] s1]; [reflexivity |].
  unfold bind, ret. destruct (run ips s1) as [[e | os] s2]; reflexivity.
Qed.

(** The requests of a run are those of a prefix of the addresses, all of
    them when no lookup raised. *)
Lemma lookups_requests ips : forall s r s',
  run ips s = (r, s') ->
  exists n, requests s' = requests s ++ take n (path <$> ips)
            /\ (forall os, r = inr os ->
                requests s' = requests s ++ (path <$> ips)
                /\ length os = length ips).
Proof.
  induction ips as [| i ips IH]; intros s r s'.
  - intros [= <- <-]. exists O. rewrite app_nil_r. split; [reflexivity |].
    intros os [= <-]. rewrite app_nil_r. split; reflexivity.
  - rewrite lookups_cons.
    destruct (get_one i s) as [[e | o] s1] eqn:G;
      apply get_ipwhois_requests in G.
    + intros [= <- <-]. exists 1%nat. rewrite G. split; [reflexivity |].
      intros os [=].
    + destruct (run ips s1) as [[e | os] s2] eqn:R;
        destruct (IH _ _ _ R) as (n & Hn & Hall); intros [= <- <-].
      * exists (S n). rewrite Hn, G, <- app_assoc. split; [reflexivity |].
        intros os [=].
      * exists (S n). split; [rewrite Hn, G, <- app_assoc; reflexivity |].
        intros os' [= <-]. destruct (Hall os eq_refl) as [Hr Hl].
        rewrite Hr, G, <- app_assoc. simpl. rewrite Hl. split; reflexivity.
Qed.

(** The loop of the bulk operation is the run of the lookups before the
    cap, each outcome stored in turn. *)
Lemma bulk_loop_lookups k rest : forall idx m s,
  0 <= idx <= k ->
  loop idx rest k m s =
  match run (address <$> take (Z.to_nat (k - idx)) rest) s with
  | (inl e, s') => (inl e, s')
  | (inr os, s') => (inr (foldl store m os), s')
  end.
Proof.
  induction rest as [| r rest IH]; intros idx m s Hidx.
  - rewrite take_nil. reflexivity.
  - simpl loop. destruct (decide (idx = k)) as [-> | Hne].
    + rewrite Z.sub_diag. reflexivity.
    + replace (Z.to_nat (k - idx)) with (S (Z.to_nat (k - (idx + 1)))) by lia.
      rewrite firstn_cons, fmap_cons, lookups_cons. unfold bind at 1.
      destruct (get_one (address r) s) as [[e | o] s1]; [reflexivity |].
      rewrite IH by lia.
      destruct (run _ s1) as [[e | os] s2]; reflexivity.
Qed.

Lemma bulk_lookups res k s :
  0 <= k ->
  bulk res k s =
  match run (capped res k) s with
  | (inl e, s') => (inl e, s')
  | (inr os, s') => (inr (foldl store ∅ os), s')
  end.
Proof.
  intros Hk. unfold bulk_get_ipwhois, capped.
  rewrite bulk_loop_lookups by lia. rewrite Z.sub_0_r. reflexivity.
Qed.

(** What a sequence of stores leaves in the map. *)
Lemma foldl_store_dom os : forall m,
  dom (foldl store m os) = dom m ∪ list_to_set (ip <$> found os).
Proof.
  induction os as [| [w |] os IH]; intros m; simpl.
  - unfold found. simpl. rewrite (right_id_L ∅ (∪)). reflexivity.
  - rewrite IH, dom_insert_L. unfold found. simpl.
    rewrite (comm_L (∪) {[ip w]} (dom m)), <- (assoc_L (∪)). reflexivity.
  - rewrite IH. reflexivity.
Qed.

Lemma foldl_store_size os : forall m,
  (size (foldl store m os) <= size m + length os)%nat.
Proof.
  induction os as [| [w |] os IH]; intros m; simpl.
  - lia.
  - etransitivity; [apply IH |]. rewrite map_size_insert.
    destruct (m !! ip w); unfold id; lia.
  - etransitivity; [apply IH |]. lia.
Qed.

Lemma foldl_store_lookup os : forall m key w,
  foldl store m os !! key = Some w ->
  (m !! key = Some w) \/ (w ∈ found os /\ ip w = key).
Proof.
  induction os as [| [w' |] os IH]; intros m key w; simpl.
  - auto.
  - intros L. apply IH in L as [L | [Hin Hk]].
    + destruct (decide (ip w' = key)) as [E | N].
      * rewrite E, lookup_insert_eq in L. injection L as ->.
        right. split; [| exact E]. unfold found. simpl. left.
      * rewrite lookup_insert_ne in L by exact N. left. exact L.
    + right. split; [| exact Hk]. unfold found. simpl. right. exact Hin.
  - intros L. apply IH in L as [L | [Hin Hk]]; [left; exact L |].
    right. split; [exact Hin | exact Hk].
Qed.

Lemma lookups_app ips1 : forall ips2 s,
  run (ips1 ++ ips2) s =
  match run ips1 s with
  | (inl e, s1) => (inl e, s1)
  | (inr os1, s1) =>
      match run ips2 s1 with
      | (inl e, s2) => (inl e, s2)
      | (inr os2, s2) => (inr (os1 ++ os2), s2)
      end
  end.
Proof.
  induction ips1 as [| i ips1 IH]; intros ips2 s.
  - change (run [] s) with (@inr exn (list (option IpWhois)) [], s).
    simpl app. cbv beta iota.
    destruct (run ips2 s) as [[e | os2] s2]; reflexivity.
  - simpl app. rewrite !lookups_cons.
    destruct (get_one i s) as [[e | o] s1]; [reflexivity |].
    rewrite IH. destruct (run ips1 s1) as [[e | os1] s2]; [reflexivity |].
    destruct (run ips2 s2) as [[e | os2] s3]; reflexivity.
Qed.

(** Whatever the cap, an entry of the map the loop returns was there
    before or sits under the [ip] of its own record. *)
Lemma bulk_loop_keys k rest : forall idx m s m' s',
  loop idx rest k m s = (inr m', s') ->
  forall key w, m' !! key = Some w -> m !! key = Some w \/ key = ip w.
Proof.
  induction rest as [| r rest IH]; intros idx m s m' s'; simpl loop.
  - intros [= <- <-] key w L. left. exact L.
  - destruct (decide (idx = k)) as [_ | _].
    + intros [= <- <-] key w L. left. exact L.
    + unfold bind at 1.
      destruct (get_one (address r) s) as [[e | o] s1]; [discriminate |].
      intros E key w L. destruct (IH _ _ _ _ _ E key w L) as [L' | K];
        [| right; exact K].
      destruct o as [w' |]; simpl in L'; [| left; exact L'].
      destruct (decide (ip w' = key)) as [Ek | Nk].
      * rewrite Ek, lookup_insert_eq in L'. injection L' as ->.
        right. symmetry. exact Ek.
      * rewrite lookup_insert_ne in L' by exact Nk. left. exact L'.
Qed.

(** When every record carries the address it was asked for, the [ip]
    fields of the records found are the addresses whose lookup
    succeeded. *)
Lemma found_when_echoed ips : forall outcomes,
  Forall2 (fun i o => forall w, o = Some w -> ip w = i) ips outcomes ->
  ip <$> found outcomes = answered ips outcomes.
Proof.
  induction ips as [| i ips IH]; intros outcomes Hall.
  - apply Forall2_nil_inv_l in Hall as ->. reflexivity.
  - apply Forall2_cons_inv_l in Hall as (o & outcomes' & Ho & Hall & ->).
    destruct o as [w |]; unfold found; simpl.
    + rewrite (Ho w eq_refl). f_equal. apply IH. exact Hall.
    + apply IH. exact Hall.
Qed.

(** ** The claims about the bulk operation *)

(** C6: with a cap of 0 the bulk operation returns the empty map and
    leaves the session as it was: no request is sent, for any
    resolutions. *)
Theorem bulk_get_ipwhois_zero res s :
  bulk_get_ipwhois http_get parse_obj res 0 s = (inr ∅, s).
Proof.
  unfold bulk_get_ipwhois. destruct (data res) as [| r rest]; simpl.
  - reflexivity.
  - destruct (decide (0 = 0)) as [_ | N]; [reflexivity | contradiction].
Qed.

(** X19: for a cap [k >= 0] the requests of the bulk operation are those
    for a prefix of the first [k] resolutions, so none is sent beyond the
    cap; when it returns a map, all of the first [k] were asked about, in
    order, the map has at most [k] keys, and its keys are exactly the [ip]
    fields of the records the provider returned for the lookups that
    succeeded. *)
Theorem bulk_get_ipwhois_cap res k s r s' :
  0 <= k ->
  bulk_get_ipwhois http_get parse_obj res k s = (r, s') ->
  (exists n, requests s' = requests s ++ take n (path <$> capped res k)) /\
  (forall m, r = inr m ->
     exists outcomes,
       lookups http_get parse_obj (capped res k) s = (inr outcomes, s')
       /\ dom m = list_to_set (ip <$> found outcomes)
       /\ (size m <= Z.to_nat k)%nat
       /\ requests s' = requests s ++ (path <$> capped res k)).
Proof.
  intros Hk. rewrite bulk_lookups by exact Hk.
  destruct (run (capped res k) s) as [[e | os] s1] eqn:R;
    destruct (lookups_requests _ _ _ _ R) as (n & Hn & Hall);
    intros [= <- <-].
  - split; [exists n; exact Hn |]. intros m [=].
  - split; [exists n; exact Hn |]. intros m [= <-].
    destruct (Hall os eq_refl) as [Hreq Hlen].
    exists os. split; [reflexivity |]. split; [| split; [| exact Hreq]].
    + rewrite foldl_store_dom, dom_empty_L, (left_id_L ∅ (∪)). reflexivity.
    + etransitivity; [apply foldl_store_size |].
      rewrite map_size_empty, Hlen. unfold capped.
      rewrite length_fmap, length_take. lia.
Qed.

(** C3, amended: when the lookups of the resolutions before one within
    the cap went through and the request for that one fails in
    transport, the bulk operation raises that error: it returns no map,
    and the last request it sent is the failed one. *)
Theorem bulk_get_ipwhois_raises res k s pre r post os s1 e w :
  data res = pre ++ r :: post ->
  Z.of_nat (length pre) < k ->
  lookups http_get parse_obj (address <$> pre) s = (inr os, s1) ->
  http_get (world s1) (path (address r)) = (inl e, w) ->
  bulk_get_ipwhois http_get parse_obj res k s =
    (inl e, {| world := w;
               requests := requests s ++ (path <$> (address <$> pre ++ [r])) |}).
Proof.
  intros Hdata Hlt Hpre Herr.
  rewrite bulk_lookups by lia. unfold capped. rewrite Hdata.
  rewrite take_app_ge by lia.
  replace (Z.to_nat k - length pre)%nat
    with (S (Z.to_nat k - length pre - 1)) by lia.
  rewrite firstn_cons, fmap_app, fmap_cons, lookups_app, Hpre, lookups_cons.
  rewrite (get_ipwhois_transport_error _ _ _ _ Herr).
  destruct (lookups_requests _ _ _ _ Hpre) as (_ & _ & Hall).
  destruct (Hall os eq_refl) as [-> _].
  rewrite !fmap_app, <- app_assoc. reflexivity.
Qed.

(** C10, amended: every entry of the map of the bulk operation sits
    under the [ip] field of its own record, the one the provider
    returned; every entry of the map of the single-address operation sits
    under the address the caller gave.  So a record whose [ip] differs
    from the address [q] it was asked for is not what the resolution [q]
    gets at render time: only an address equal to the record's [ip]
    finds it. *)
Theorem enrichment_map_keys res k s mb sb q s2 ms ss :
  bulk_get_ipwhois http_get parse_obj res k s = (inr mb, sb) ->
  single_get_ipwhois http_get parse_obj q s2 = (inr ms, ss) ->
  (forall key w, mb !! key = Some w -> key = ip w)
  /\ (forall a w, _get_ip_enrichment (IpWhoisMap mb) a = Some (EIpWhois w) ->
                 a = ip w)
  /\ (forall key w, ms !! key = Some w -> key = q).
Proof.
  intros Hb Hs.
  assert (K : forall key w, mb !! key = Some w -> key = ip w).
  { intros key w L. unfold bulk_get_ipwhois in Hb.
    destruct (bulk_loop_keys _ _ _ _ _ _ _ Hb key w L) as [L0 | E];
      [| exact E].
    rewrite lookup_empty in L0. discriminate. }
  split; [exact K |]. split.
  - intros a w. simpl. destruct (mb !! a) as [w' |] eqn:L; [| discriminate].
    intros [= <-]. exact (K _ _ L).
  - intros key w. unfold single_get_ipwhois, bind in Hs.
    destruct (get_one q s2) as [[e | [w' |]] s3]; [discriminate | |];
      injection Hs as <- <-.
    + destruct (decide (q = key)) as [E | N]; [intros _; symmetry; exact E |].
      rewrite lookup_insert_ne by exact N. rewrite lookup_empty. discriminate.
    + rewrite lookup_empty. discriminate.
Qed.

End ClientFacts.

(** ** The bulk operation on the sample providers *)

Section ClientExamples.

Import Sample.

(** C1: where the code departs from the claim.  The provider answers the
    query about 1.1.1.1, the one resolution within the cap, with a record
    whose [ip] is 2.2.2.2.  The lookup succeeds, and the bulk operation
    stores the record under 2.2.2.2, so the keys are not the addresses of
    the resolutions that were answered and the render-time lookup of
    1.1.1.1 finds nothing; the single-address operation, on the same
    answer, stores the record under 1.1.1.1. *)
Lemma bulk_key_differs_from_queried_address :
  exists m outcomes s',
    bulk_get_ipwhois (table_get misnamed) parse_ip_only two_resolutions 1 start
      = (inr m, s')
    /\ lookups (table_get misnamed) parse_ip_only (capped two_resolutions 1) start
      = (inr outcomes, s')
    /\ answered (capped two_resolutions 1) outcomes = ["1.1.1.1"]
    /\ dom m = {["2.2.2.2"]}
    /\ dom m <> list_to_set (answered (capped two_resolutions 1) outcomes)
    /\ _get_ip_enrichment (IpWhoisMap m) "1.1.1.1" = None
    /\ exists ms,
         single_get_ipwhois (table_get misnamed) parse_ip_only "1.1.1.1" start
           = (inr ms, s')
         /\ dom ms = {["1.1.1.1"]}.
Proof.
  exists (<["2.2.2.2" := record_of "2.2.2.2"]> ∅), [Some (record_of "2.2.2.2")],
    {| world := (); requests := ["/1.1.1.1"] |}.
  split; [vm_compute; reflexivity |]. split; [vm_compute; reflexivity |].
  split; [vm_compute; reflexivity |]. split; [vm_compute; reflexivity |].
  split; [vm_compute; discriminate |]. split; [vm_compute; reflexivity |].
  exists (<["1.1.1.1" := record_of "2.2.2.2"]> ∅).
  split; vm_compute; reflexivity.
Qed.

Lemma bulk_get_ipwhois_cap_witness :
  bulk_get_ipwhois (table_get echoing) parse_ip_only two_resolutions 2 start
    = (inr (<["1.1.1.1" := record_of "1.1.1.1"]> ∅),
       {| world := (); requests := ["/1.1.1.1"; "/2.2.2.2"] |})
  /\ exists outcomes,
       lookups (table_get echoing) parse_ip_only (capped two_resolutions 2) start
         = (inr outcomes, {| world := (); requests := ["/1.1.1.1"; "/2.2.2.2"] |})
       /\ dom (<["1.1.1.1" := record_of "1.1.1.1"]> (∅ : gmap string IpWhois))
          = list_to_set (ip <$> found outcomes)
       /\ (size (<["1.1.1.1" := record_of "1.1.1.1"]> (∅ : gmap string IpWhois))
           <= Z.to_nat 2)%nat
       /\ requests {| world := (); requests := ["/1.1.1.1"; "/2.2.2.2"] |}
          = requests start ++ ((fun i => "/" +:+ i) <$> capped two_resolutions 2).
Proof.
  split; [vm_compute; reflexivity |].
  refine (proj2 (bulk_get_ipwhois_cap (table_get echoing) parse_ip_only
                   two_resolutions 2 start _ _ _ _) _ eq_refl).
  - lia.
  - vm_compute; reflexivity.
Defined.

(** C3 fails as stated: the connection fails for 1.1.1.1, within the
    cap, and the bulk operation raises; 2.2.2.2 is never asked about and
    no map is returned. *)
Lemma transport_error_aborts_bulk :
  table_get failing_first () "/1.1.1.1" = (inl ConnectionError, ())
  /\ bulk_get_ipwhois (table_get failing_first) parse_ip_only two_resolutions 2 start
     = (inl ConnectionError, {| world := (); requests := ["/1.1.1.1"] |})
  /\ ~ exists m s',
        bulk_get_ipwhois (table_get failing_first) parse_ip_only two_resolutions 2 start
          = (inr m, s').
Proof.
  split; [vm_compute; reflexivity |]. split; [vm_compute; reflexivity |].
  intros (m & s' & E). vm_compute in E. discriminate.
Qed.

Lemma bulk_get_ipwhois_raises_witness :
  bulk_get_ipwhois (table_get failing_first) parse_ip_only two_resolutions 2 start
    = (inl ConnectionError, {| world := (); requests := [] ++ ["/1.1.1.1"] |}).
Proof.
  apply (bulk_get_ipwhois_raises (table_get failing_first) parse_ip_only
           two_resolutions 2 start [] (resolution "1.1.1.1" 1700000000)
           [resolution "2.2.2.2" 1600000000] [] start ConnectionError ()).
  - reflexivity.
  - simpl; lia.
  - reflexivity.
  - vm_compute; reflexivity.
Defined.

(** C10 fails as stated: the record the provider returns for 1.1.1.1
    carries the [ip] 2.2.2.2, and the second resolution, 2.2.2.2, finds
    it at render time. *)
Lemma misnamed_record_matches_other_resolution :
  exists m s' r,
    get_ipwhois (table_get misnamed) parse_ip_only "1.1.1.1" start
      = (inr (Some (record_of "2.2.2.2")), s')
    /\ bulk_get_ipwhois (table_get misnamed) parse_ip_only two_resolutions 1 start
      = (inr m, s')
    /\ data two_resolutions !! 1%nat = Some r
    /\ _get_ip_enrichment (IpWhoisMap m) (ip_address (attributes r))
      = Some (EIpWhois (record_of "2.2.2.2")).
Proof.
  exists (<["2.2.2.2" := record_of "2.2.2.2"]> ∅),
    {| world := (); requests := ["/1.1.1.1"] |},
    (resolution "2.2.2.2" 1600000000).
  repeat split; vm_compute; reflexivity.
Qed.

Lemma enrichment_map_keys_witness :
  (forall key w,
      (<["2.2.2.2" := record_of "2.2.2.2"]> ∅ : gmap string IpWhois) !! key = Some w ->
      key = ip w)
  /\ (forall a w,
        _get_ip_enrichment (IpWhoisMap (<["2.2.2.2" := record_of "2.2.2.2"]> ∅)) a
          = Some (EIpWhois w) ->
        a = ip w)
  /\ (forall key w,
        (<["1.1.1.1" := record_of "2.2.2.2"]> ∅ : gmap string IpWhois) !! key = Some w ->
        key = "1.1.1.1").
Proof.
  apply (enrichment_map_keys (table_get misnamed) parse_ip_only two_resolutions 2
           start _ {| world := (); requests := ["/1.1.1.1"; "/2.2.2.2"] |}
           "1.1.1.1" start _ {| world := (); requests := ["/1.1.1.1"] |}).
  - vm_compute; reflexivity.
  - vm_compute; reflexivity.
Defined.

End ClientExamples.

(** * Properties of the views *)

Section ContentFacts.

Lemma entries_app a b : entries (a ++ b) = entries a ++ entries b.
Proof. apply omap_app. Qed.

Lemma separators_app a b : separators (a ++ b) = separators a ++ separators b.
Proof. apply omap_app. Qed.

Lemma markers_app a b : markers (a ++ b) = markers a ++ markers b.
Proof. apply omap_app. Qed.

Lemma intersperse_cons2 {A} (sep x y : A) l :
  intersperse sep (x :: y :: l) = x :: sep :: intersperse sep (y :: l).
Proof. reflexivity. Qed.

(** Entries with blank lines between them: what each reading finds. *)
Lemma entries_intersperse s (infos : list Info) :
  entries (intersperse (RStr s) (RInfo <$> infos)) = infos.
Proof.
  induction infos as [| i [| j infos] IH]; [reflexivity | reflexivity |].
  rewrite !fmap_cons, intersperse_cons2. rewrite !fmap_cons in IH.
  change (entries (RInfo i :: RStr s :: ?l)) with (i :: entries l).
  rewrite IH. reflexivity.
Qed.

Lemma separators_intersperse s (infos : list Info) :
  separators (intersperse (RStr s) (RInfo <$> infos)) = replicate (length infos - 1) s.
Proof.
  induction infos as [| i [| j infos] IH]; [reflexivity | reflexivity |].
  rewrite !fmap_cons, intersperse_cons2. rewrite !fmap_cons in IH.
  change (separators (RInfo i :: RStr s :: ?l)) with (s :: separators l).
  rewrite IH. simpl. rewrite Nat.sub_0_r. reflexivity.
Qed.

Lemma markers_intersperse s (infos : list Info) :
  markers (intersperse (RStr s) (RInfo <$> infos)) = [].
Proof.
  induction infos as [| i [| j infos] IH]; [reflexivity | reflexivity |].
  rewrite !fmap_cons, intersperse_cons2. rewrite !fmap_cons in IH.
  change (markers (RInfo i :: RStr s :: ?l)) with (markers l).
  exact IH.
Qed.

(** A table shows no label that was not handed to it. *)
Lemma _gen_table_labels (params : list row) l :
  l ∈ fst <$> _gen_table params -> l ∈ fst <$> params.
Proof.
  unfold _gen_table. rewrite !list_elem_of_fmap.
  intros ([f v] & -> & Hin). apply list_elem_of_omap in Hin as ([f' [v' |]] & Hin & E);
    simpl in E; [| discriminate].
  injection E as <- <-. exists (f', Some v'). split; [reflexivity | exact Hin].
Qed.

(** A row with a value is in the table. *)
Lemma _gen_table_shows (params : list row) f v :
  (f, Some v) ∈ params -> (f, v) ∈ _gen_table params.
Proof.
  intros Hin. unfold _gen_table. apply list_elem_of_omap.
  exists (f, Some v). split; [exact Hin | reflexivity].
Qed.

End ContentFacts.

Section ViewFacts.

Context `{BaseView}.

(** The loop renders the resolutions before the cap, a blank line between
    neighbours. *)
Lemma resolutions_loop_shape v len rest : forall idx content,
  0 <= idx <= max_resolutions v ->
  len = idx + Z.of_nat (length rest) ->
  resolutions_loop v len idx rest content =
  content ++ intersperse (RStr "")
    (RInfo <$> (resolution_info (dv_ip_enrich v)
                  <$> take (Z.to_nat (max_resolutions v - idx)) rest)).
Proof.
  induction rest as [| r rest IH]; intros idx content Hidx Hlen.
  - rewrite take_nil. simpl. rewrite app_nil_r. reflexivity.
  - simpl resolutions_loop. destruct (decide (idx = max_resolutions v)) as [E | N].
    + rewrite E, Z.sub_diag. simpl. rewrite app_nil_r. reflexivity.
    + replace (Z.to_nat (max_resolutions v - idx))
        with (S (Z.to_nat (max_resolutions v - (idx + 1)))) by lia.
      rewrite firstn_cons, !fmap_cons.
      simpl length in Hlen.
      rewrite IH by lia.
      destruct (decide (idx < max_resolutions v - 1 ∧ idx < len - 1)) as [[H1 H2] | Hno].
      * destruct rest as [| r' rest']; [simpl in Hlen; lia |].
        replace (Z.to_nat (max_resolutions v - (idx + 1)))
          with (S (Z.to_nat (max_resolutions v - (idx + 1)) - 1)) by lia.
        rewrite firstn_cons, !fmap_cons, intersperse_cons2.
        rewrite <- !app_assoc. reflexivity.
      * assert (E : take (Z.to_nat (max_resolutions v - (idx + 1))) rest = []).
        { destruct rest as [| r' rest']; [apply take_nil |].
          replace (Z.to_nat (max_resolutions v - (idx + 1))) with O;
            [reflexivity |].
          simpl length in Hlen. lia. }
        rewrite E. simpl. rewrite app_nil_r. reflexivity.
Qed.

(** Whatever the cap, an entry of the loop was in [content] before or is
    the entry of one of the resolutions. *)
Lemma resolutions_loop_entries v len rest : forall idx content i,
  i ∈ entries (resolutions_loop v len idx rest content) ->
  i ∈ entries content \/
  exists r, r ∈ rest /\ i = resolution_info (dv_ip_enrich v) r.
Proof.
  induction rest as [| r rest IH]; intros idx content i; simpl resolutions_loop.
  - intros Hin. left. exact Hin.
  - destruct (decide (idx = max_resolutions v)) as [_ | _];
      [intros Hin; left; exact Hin |].
    intros Hin. apply IH in Hin as [Hin | (r' & Hr' & ->)].
    + assert (Hc : i ∈ entries (content ++ [RInfo (resolution_info (dv_ip_enrich v) r)])).
      { destruct (decide _); [| exact Hin].
        rewrite entries_app in Hin. simpl in Hin. rewrite app_nil_r in Hin.
        exact Hin. }
      rewrite entries_app in Hc. apply elem_of_app in Hc as [Hc | Hc];
        [left; exact Hc |].
      right. exists r. split; [left |].
      apply list_elem_of_singleton in Hc. exact Hc.
    + right. exists r'. split; [right; exact Hr' | reflexivity].
Qed.

Lemma resolutions_content_shape v res :
  0 <= max_resolutions v ->
  resolutions_content v res =
  intersperse (RStr "")
    (RInfo <$> (resolution_info (dv_ip_enrich v)
                  <$> take (Z.to_nat (max_resolutions v)) (data res)))
  ++ (if decide (max_resolutions v < count (meta res))
      then [RText (more_text (count (meta res) - max_resolutions v))]
      else []).
Proof.
  intros Hm. unfold resolutions_content.
  rewrite resolutions_loop_shape by lia. rewrite Z.sub_0_r. simpl app.
  destruct (decide _); [reflexivity | rewrite app_nil_r; reflexivity].
Qed.

Lemma resolutions_content_entries v res i :
  i ∈ entries (resolutions_content v res) ->
  exists r, r ∈ data res /\ i = resolution_info (dv_ip_enrich v) r.
Proof.
  unfold resolutions_content. intros Hin.
  assert (Hl : i ∈ entries (resolutions_loop v (Z.of_nat (length (data res))) 0
                              (data res) [])).
  { destruct (decide _); [| exact Hin].
    rewrite entries_app in Hin. simpl in Hin. rewrite app_nil_r in Hin. exact Hin. }
  apply resolutions_loop_entries in Hl as [Hl | Hl]; [| exact Hl].
  simpl in Hl. apply elem_of_nil in Hl. contradiction.
Qed.

(** ** The claims about the resolutions panel *)

(** C2, amended: for a cap [max_resolutions >= 0] the resolutions panel
    renders the entries of the first [min(max_resolutions, len(fetched))]
    resolutions, in their order; the "+N more" text is there if and only
    if [max_resolutions < total_count], as the last item, with
    [N = total_count - max_resolutions]. *)
Theorem resolutions_panel_truncation v res :
  dv_resolutions v = Some res ->
  0 <= max_resolutions v ->
  resolutions_panel v =
    match resolutions_content v res with
    | [] => None
    | content => Some {| title := "resolutions"; body := BGroup content |}
    end
  /\ entries (resolutions_content v res) =
     (resolution_info (dv_ip_enrich v)
        <$> take (Z.to_nat (max_resolutions v)) (data res))
  /\ Z.of_nat (length (entries (resolutions_content v res))) =
     Z.min (max_resolutions v) (Z.of_nat (length (data res)))
  /\ markers (resolutions_content v res) =
     (if decide (max_resolutions v < count (meta res))
      then [more_text (count (meta res) - max_resolutions v)]
      else [])
  /\ (max_resolutions v < count (meta res) ->
      last (resolutions_content v res) =
      Some (RText (more_text (count (meta res) - max_resolutions v)))).
Proof.
  intros Hres Hm.
  assert (He : entries (resolutions_content v res) =
               (resolution_info (dv_ip_enrich v)
                  <$> take (Z.to_nat (max_resolutions v)) (data res))).
  { rewrite resolutions_content_shape by exact Hm.
    rewrite entries_app, entries_intersperse.
    destruct (decide _); simpl; rewrite app_nil_r; reflexivity. }
  split; [unfold resolutions_panel; rewrite Hres; reflexivity |].
  split; [exact He |]. split; [| split].
  - rewrite He, length_fmap, length_take. lia.
  - rewrite resolutions_content_shape by exact Hm.
    rewrite markers_app, markers_intersperse.
    destruct (decide _); reflexivity.
  - intros Hlt. unfold resolutions_content.
    destruct (decide _) as [_ | N]; [apply last_snoc | contradiction].
Qed.

(** C7, amended: for a cap [max_resolutions >= 0] the content of the
    resolutions panel is its entries with one blank line between each two
    neighbours, followed by the "+N more" text if there is one; so [N >= 1]
    entries come with exactly [N - 1] blank lines, none after the last
    entry. *)
Theorem resolutions_panel_separators v res :
  0 <= max_resolutions v ->
  resolutions_content v res =
    intersperse (RStr "") (RInfo <$> entries (resolutions_content v res))
    ++ (RText <$> markers (resolutions_content v res))
  /\ separators (resolutions_content v res) =
     replicate (length (entries (resolutions_content v res)) - 1) ""
  /\ ((1 <= length (entries (resolutions_content v res)))%nat ->
      S (length (separators (resolutions_content v res))) =
      length (entries (resolutions_content v res))).
Proof.
  intros Hm.
  assert (Hs : separators (resolutions_content v res) =
               replicate (length (entries (resolutions_content v res)) - 1) "").
  { rewrite (resolutions_content_shape _ _ Hm) at 1 2.
    rewrite separators_app, entries_app, separators_intersperse, entries_intersperse.
    destruct (decide _); simpl; rewrite !app_nil_r; reflexivity. }
  split; [| split; [exact Hs |]].
  - rewrite (resolutions_content_shape _ _ Hm) at 1 2 3.
    rewrite entries_app, markers_app, entries_intersperse, markers_intersperse.
    destruct (decide _); simpl; rewrite !app_nil_r; reflexivity.
  - intros HN. rewrite Hs, length_replicate. lia.
Qed.

(** ** The claims about the fields of a report *)

Ltac in_literal :=
  repeat first [apply list_elem_of_here | apply list_elem_of_further].

Ltac split_literal Hl :=
  rewrite ?elem_of_cons, ?elem_of_nil in Hl;
  repeat (destruct Hl as [-> | Hl]; [in_literal |]);
  try contradiction.

Lemma geolocation_not_variant l a :
  l ∈ geolocation_labels -> l ∉ variant_only_labels a.
Proof.
  unfold geolocation_labels, variant_only_labels. simpl. intros Hl Hbad.
  rewrite !elem_of_cons, elem_of_nil in Hl.
  rewrite !elem_of_cons, elem_of_nil in Hbad.
  repeat (destruct Hl as [-> | Hl];
          [repeat (destruct Hbad as [Hbad | Hbad]; [discriminate |]);
           exact Hbad |]).
  exact Hl.
Qed.

(** With a map of [IpWhois] records the enrichment rows are the three
    geolocation rows, or none. *)
Lemma enrich_rows_geolocation a root q l :
  l ∈ fst <$> enrich_rows a (_get_ip_enrichment (IpWhoisMap root) q) ->
  l ∈ geolocation_labels.
Proof.
  simpl. destruct (root !! q) as [w |]; simpl; intros Hl;
    unfold geolocation_labels; simpl; split_literal Hl.
Qed.

Lemma resolution_info_body enrich r :
  info_body (resolution_info enrich r) = _gen_table (resolution_data enrich r).
Proof. reflexivity. Qed.

Lemma ip_panel_labels v :
  panel_labels (ip_panel v) = fst <$> _gen_table (ip_data v).
Proof. reflexivity. Qed.

Lemma resolution_info_geolocation root r l :
  l ∈ fst <$> info_body (resolution_info (IpWhoisMap root) r) ->
  l ∈ geolocation_labels.
Proof.
  rewrite resolution_info_body. intros Hl. apply _gen_table_labels in Hl.
  unfold resolution_data in Hl. rewrite fmap_app in Hl.
  apply elem_of_app in Hl as [Hl | Hl].
  - simpl in Hl. unfold geolocation_labels. simpl. split_literal Hl.
  - exact (enrich_rows_geolocation _ _ _ _ Hl).
Qed.

(** C5: with the geolocation-only provider, every record an [IpWhois], no
    table of the entity panel, of the resolutions panel or of the
    address panel has an OS, services, tags or last-scan label. *)
Theorem geolocation_only_fields vd vi rootd rooti l a :
  dv_ip_enrich vd = IpWhoisMap rootd ->
  iv_ip_enrich vi = IpWhoisMap rooti ->
  l ∈ panel_labels (domain_panel vd)
  \/ (exists p, resolutions_panel vd = Some p /\ l ∈ panel_labels p)
  \/ l ∈ panel_labels (ip_panel vi) ->
  l ∈ geolocation_labels /\ l ∉ variant_only_labels a.
Proof.
  intros Hd Hi Hl.
  assert (G : l ∈ geolocation_labels); [| split; [exact G |];
    apply geolocation_not_variant; exact G].
  destruct Hl as [Hl | [(p & Hp & Hl) | Hl]].
  - unfold domain_panel, panel_labels in Hl. cbv zeta in Hl.
    unfold _gen_panel, _gen_info in Hl. cbn [body info_body] in Hl.
    apply _gen_table_labels in Hl. simpl in Hl.
    unfold geolocation_labels. simpl. split_literal Hl.
  - unfold resolutions_panel in Hp.
    destruct (dv_resolutions vd) as [res |]; [| discriminate].
    destruct (resolutions_content vd res) as [| x content] eqn:E; [discriminate |].
    injection Hp as <-. unfold panel_labels in Hl. simpl body in Hl.
    unfold _gen_group in Hl. rewrite <- E in Hl.
    apply list_elem_of_bind in Hl as (i & Hl & Hin).
    apply resolutions_content_entries in Hin as (r & _ & ->).
    rewrite Hd in Hl. exact (resolution_info_geolocation _ _ _ Hl).
  - rewrite ip_panel_labels in Hl.
    apply _gen_table_labels in Hl. unfold ip_data in Hl.
    rewrite Hi, fmap_app in Hl. apply elem_of_app in Hl as [Hl | Hl].
    + simpl in Hl. unfold geolocation_labels. simpl. split_literal Hl.
    + exact (enrich_rows_geolocation _ _ _ _ Hl).
Qed.

Lemma omap_id_absent {A} n : omap id (replicate n (@None A)) = [].
Proof. induction n as [| n IH]; [reflexivity | exact IH]. Qed.

Lemma omap_id_present {A} (l : list A) : omap id (Some <$> l) = l.
Proof. induction l as [| y l IH]; [reflexivity |]. simpl. f_equal. exact IH. Qed.

(** C4: the smart join of components of which one alone is present is
    that component, of absent components only is the absent value, and of
    present components is their concatenation with ", " between them; so
    for the three joins the spec names. *)
Theorem smart_join_cases :
  (forall before after b,
      smart_join None (replicate before None ++ Some b :: replicate after None)
      = Some (CStr b))
  /\ (forall n, smart_join None (replicate n None) = None)
  /\ (forall x present,
        smart_join None (Some <$> x :: present)
        = Some (CStr (String.concat separator (x :: present))))
  /\ smart_join None [None; Some "b"; None] = Some (CStr "b")
  /\ smart_join None [None; None] = None
  /\ smart_join None [Some "a"; Some "b"; Some "c"] = Some (CStr "a, b, c").
Proof.
  split; [| split; [| split; [| repeat split]]].
  - intros before after b. unfold smart_join.
    rewrite omap_app, omap_id_absent. simpl. rewrite omap_id_absent. reflexivity.
  - intros n. unfold smart_join. rewrite omap_id_absent. reflexivity.
  - intros x present. unfold smart_join. rewrite omap_id_present. reflexivity.
Qed.

End ViewFacts.

(** ** The views on the sample data *)

Section ViewExamples.

Import Sample.

(** C2 fails as stated: with a cap of -1 both fetched resolutions are
    rendered, which is not [min(-1, 2)]. *)
Lemma negative_cap_renders_all :
  length (entries (resolutions_content (domain_view (IpWhoisMap ∅) (-1))
                     two_resolutions)) = 2%nat
  /\ Z.of_nat (length (entries (resolutions_content (domain_view (IpWhoisMap ∅) (-1))
                                  two_resolutions)))
     <> Z.min (max_resolutions (domain_view (IpWhoisMap ∅) (-1)))
              (Z.of_nat (length (data two_resolutions))).
Proof. split; [vm_compute; reflexivity | vm_compute; discriminate]. Qed.

Lemma resolutions_panel_truncation_witness :
  entries (resolutions_content (domain_view (IpWhoisMap ∅) 1) two_resolutions)
    = [resolution_info (IpWhoisMap ∅) (resolution "1.1.1.1" 1700000000)]
  /\ markers (resolutions_content (domain_view (IpWhoisMap ∅) 1) two_resolutions)
    = [more_text 1].
Proof.
  destruct (resolutions_panel_truncation (domain_view (IpWhoisMap ∅) 1)
              two_resolutions eq_refl) as (_ & He & _ & Hm & _).
  - simpl; lia.
  - split; [exact He | exact Hm].
Defined.

(** C7 fails as stated: with a cap of -1 the two rendered entries have no
    blank line between them. *)
Lemma negative_cap_has_no_separator :
  length (entries (resolutions_content (domain_view (IpWhoisMap ∅) (-1))
                     two_resolutions)) = 2%nat
  /\ separators (resolutions_content (domain_view (IpWhoisMap ∅) (-1))
                   two_resolutions) = [].
Proof. split; vm_compute; reflexivity. Qed.

Lemma resolutions_panel_separators_witness :
  separators (resolutions_content (domain_view (IpWhoisMap ∅) 2) two_resolutions)
    = replicate (length (entries (resolutions_content (domain_view (IpWhoisMap ∅) 2)
                                    two_resolutions)) - 1) "".
Proof.
  destruct (resolutions_panel_separators (domain_view (IpWhoisMap ∅) 2)
              two_resolutions) as (_ & Hs & _).
  - simpl; lia.
  - exact Hs.
Defined.

Lemma geolocation_only_fields_witness :
  CStr "ASN:" ∈ geolocation_labels
  /\ CStr "ASN:" ∉ variant_only_labels "1.1.1.1".
Proof.
  apply (geolocation_only_fields
           (domain_view (IpWhoisMap (<["1.1.1.1" := record_of "1.1.1.1"]> ∅)) 3)
           (ip_view (IpWhoisMap (<["1.1.1.1" := record_of "1.1.1.1"]> ∅)))
           (<["1.1.1.1" := record_of "1.1.1.1"]> ∅)
           (<["1.1.1.1" := record_of "1.1.1.1"]> ∅)).
  - reflexivity.
  - reflexivity.
  - right. right. vm_compute.
    repeat first [apply list_elem_of_here | apply list_elem_of_further].
Defined.

End ViewExamples.

(** * Further properties of the client *)

Section ClientMore.

Context {World : Type}.
Variable http_get : World -> string -> (exn + option dict) * World.
Variable parse_obj : dict -> exn + IpWhois.

Local Abbreviation get_one := (get_ipwhois http_get parse_obj).
Local Abbreviation run := (lookups http_get parse_obj).
Local Abbreviation loop := (bulk_loop http_get parse_obj).
Local Abbreviation path := (fun i : string => "/" +:+ i).
Local Abbreviation address := (fun r : Resolution => ip_address (attributes r)).

Implicit Types (s : @session World) (m : gmap string IpWhois).

Lemma is_True_false v : v <> Some (PBool true) -> is_True v = false.
Proof.
  destruct v as [[| [|] | | | |] |]; intros N; try reflexivity.
  contradiction N. reflexivity.
Qed.

(** Past the cap, or with a cap the list does not reach, the loop never
    breaks. *)
Lemma bulk_loop_uncapped k rest : forall idx m s,
  k < idx \/ idx + Z.of_nat (length rest) <= k ->
  loop idx rest k m s =
  match run (address <$> rest) s with
  | (inl e, s') => (inl e, s')
  | (inr os, s') => (inr (foldl store m os), s')
  end.
Proof.
  induction rest as [| r rest IH]; intros idx m s Hk.
  - reflexivity.
  - simpl loop. simpl length in Hk.
    destruct (decide (idx = k)) as [E | N]; [lia |].
    rewrite fmap_cons, lookups_cons. unfold bind at 1.
    destruct (get_one (address r) s) as [[e | o] s1]; [reflexivity |].
    rewrite IH by lia.
    destruct (run _ s1) as [[e | os] s2]; reflexivity.
Qed.

(** Stores as inserts of the records found. *)
Lemma foldl_store_found os : forall m,
  foldl store m os = foldl (fun m w => <[ip w := w]> m) m (found os).
Proof.
  induction os as [| [w |] os IH]; intros m; [reflexivity | |]; apply IH.
Qed.

Lemma foldl_insert_keeps (l : list IpWhois) : forall m key w,
  m !! key = Some w ->
  Forall (fun w' => ip w' <> key) l ->
  foldl (fun m w => <[ip w := w]> m) m l !! key = Some w.
Proof.
  induction l as [| w' l IH]; intros m key w L Hall; [exact L |].
  apply Forall_cons in Hall as [Hne Hall]. simpl. apply IH; [| exact Hall].
  rewrite lookup_insert_ne by exact Hne. exact L.
Qed.

(** A lookup that raises within the cap ends the bulk operation. *)
Lemma bulk_lookup_failure res k s pre r post os s1 e s2 :
  data res = pre ++ r :: post ->
  Z.of_nat (length pre) < k ->
  run (address <$> pre) s = (inr os, s1) ->
  get_one (address r) s1 = (inl e, s2) ->
  bulk_get_ipwhois http_get parse_obj res k s = (inl e, s2).
Proof.
  intros Hdata Hlt Hpre Herr.
  rewrite bulk_lookups by lia. unfold capped. rewrite Hdata.
  rewrite take_app_ge by lia.
  replace (Z.to_nat k - length pre)%nat
    with (S (Z.to_nat k - length pre - 1)) by lia.
  rewrite firstn_cons, fmap_app, fmap_cons, lookups_app, Hpre, lookups_cons, Herr.
  reflexivity.
Qed.

(** X1: for a cap [k >= 0] the bulk operation is the run of [get_ipwhois]
    over the addresses of the first [k] resolutions, in order: it raises
    what the first failing lookup raises, in the state that lookup left,
    and otherwise returns the outcomes stored one after the other. *)
Theorem bulk_get_ipwhois_sequential res k s :
  0 <= k ->
  bulk_get_ipwhois http_get parse_obj res k s =
  match lookups http_get parse_obj (capped res k) s with
  | (inl e, s') => (inl e, s')
  | (inr os, s') => (inr (foldl store ∅ os), s')
  end.
Proof. apply bulk_lookups. Qed.

(** X2: a negative cap, or one that is at least the number of
    resolutions, caps nothing: every resolution is asked about. *)
Theorem bulk_get_ipwhois_uncapped res k s :
  k < 0 \/ Z.of_nat (length (data res)) <= k ->
  bulk_get_ipwhois http_get parse_obj res k s =
  match lookups http_get parse_obj (address <$> data res) s with
  | (inl e, s') => (inl e, s')
  | (inr os, s') => (inr (foldl store ∅ os), s')
  end.
Proof.
  intros Hk. unfold bulk_get_ipwhois. apply bulk_loop_uncapped. lia.
Qed.

(** X3: a lookup sends exactly one request, for the path of its address,
    whether it returns a record, returns no data or raises. *)
Theorem get_ipwhois_one_request i s :
  requests (snd (get_ipwhois http_get parse_obj i s)) = requests s ++ ["/" +:+ i].
Proof.
  destruct (get_one i s) as [r s'] eqn:E.
  exact (get_ipwhois_requests _ _ _ _ _ _ E).
Qed.

(** X4: only the boolean [True] under [success] makes a body a record: any
    other body is "no data", and it is not validated. *)
Theorem get_ipwhois_success_flag i s d w :
  http_get (world s) ("/" +:+ i) = (inr (Some d), w) ->
  d !! "success" <> Some (PBool true) ->
  get_ipwhois http_get parse_obj i s =
    (inr None, {| world := w; requests := requests s ++ ["/" +:+ i] |}).
Proof.
  intros E N. apply (get_ipwhois_no_data _ _ _ _ d w E).
  apply is_True_false. exact N.
Qed.

(** X5: when several lookups return records with the same [ip], the map
    keeps the record of the last of them. *)
Theorem bulk_last_record_wins res k s os s' before w after :
  0 <= k ->
  lookups http_get parse_obj (capped res k) s = (inr os, s') ->
  found os = before ++ w :: after ->
  Forall (fun w' => ip w' <> ip w) after ->
  exists m, bulk_get_ipwhois http_get parse_obj res k s = (inr m, s')
            /\ m !! ip w = Some w.
Proof.
  intros Hk Hrun Hfound Hafter.
  rewrite bulk_lookups by exact Hk. rewrite Hrun.
  eexists. split; [reflexivity |].
  rewrite foldl_store_found, Hfound, foldl_app. simpl.
  apply foldl_insert_keeps; [apply lookup_insert_eq | exact Hafter].
Qed.

(** X6: for a provider that echoes the address [q] it is asked about, the
    single-address operation is the bulk operation on the one resolution
    [q] with a cap of at least 1. *)
Theorem single_get_ipwhois_as_bulk q res r k s :
  data res = [r] ->
  ip_address (attributes r) = q ->
  1 <= k ->
  (forall w s', get_ipwhois http_get parse_obj q s = (inr (Some w), s') -> ip w = q) ->
  single_get_ipwhois http_get parse_obj q s
  = bulk_get_ipwhois http_get parse_obj res k s.
Proof.
  intros Hdata Hq Hk Hecho.
  rewrite bulk_lookups by lia. unfold capped. rewrite Hdata.
  replace (Z.to_nat k) with (S (Z.to_nat k - 1)) by lia.
  rewrite firstn_cons, take_nil, fmap_cons, Hq, lookups_cons.
  unfold single_get_ipwhois, bind.
  destruct (get_one q s) as [[e | [w |]] s1] eqn:G; simpl; try reflexivity.
  rewrite (Hecho w s1 eq_refl). reflexivity.
Qed.

(** X7: when the records found carry pairwise distinct [ip]s, the map has
    exactly one entry per successful lookup. *)
Theorem bulk_size_distinct res k s os s' :
  0 <= k ->
  lookups http_get parse_obj (capped res k) s = (inr os, s') ->
  NoDup (ip <$> found os) ->
  exists m, bulk_get_ipwhois http_get parse_obj res k s = (inr m, s')
            /\ size m = length (found os).
Proof.
  intros Hk Hrun Hnd.
  rewrite bulk_lookups by exact Hk. rewrite Hrun.
  eexists. split; [reflexivity |].
  rewrite <- size_dom, foldl_store_dom, dom_empty_L, (left_id_L ∅ (∪)).
  rewrite size_list_to_set by exact Hnd. apply length_fmap.
Qed.

(** X8: a body within the cap that says [success] and does not validate
    ends the bulk operation with the validation error; the resolutions
    after it are not asked about. *)
Theorem bulk_get_ipwhois_invalid_body res k s pre r post os s1 d e w :
  data res = pre ++ r :: post ->
  Z.of_nat (length pre) < k ->
  lookups http_get parse_obj (address <$> pre) s = (inr os, s1) ->
  http_get (world s1) ("/" +:+ ip_address (attributes r)) = (inr (Some d), w) ->
  d !! "success" = Some (PBool true) ->
  parse_obj d = inl e ->
  bulk_get_ipwhois http_get parse_obj res k s =
    (inl e, {| world := w;
               requests := requests s ++ (path <$> (address <$> pre ++ [r])) |}).
Proof.
  intros Hdata Hlt Hpre Hget Hflag Hparse.
  assert (G : get_one (address r) s1 =
              (inl e, {| world := w; requests := requests s1 ++ [path (address r)] |})).
  { unfold get_ipwhois, bind, _get. rewrite Hget. simpl. rewrite Hflag. simpl.
    rewrite Hparse. reflexivity. }
  rewrite (bulk_lookup_failure _ _ _ _ _ _ _ _ _ _ Hdata Hlt Hpre G).
  destruct (lookups_requests _ _ _ _ _ _ Hpre) as (_ & _ & Hall).
  destruct (Hall os eq_refl) as [-> _].
  rewrite !fmap_app, <- app_assoc. reflexivity.
Qed.

(** X20: with a provider whose records carry the address they were asked
    for, the keys of the map of the bulk operation, for a cap [k >= 0],
    are exactly the addresses of the first [k] resolutions whose lookup
    succeeded, and there are at most [k] of them. *)
Theorem bulk_keys_when_echoed res k s os s' :
  0 <= k ->
  lookups http_get parse_obj (capped res k) s = (inr os, s') ->
  Forall2 (fun i o => forall w, o = Some w -> ip w = i) (capped res k) os ->
  exists m,
    bulk_get_ipwhois http_get parse_obj res k s = (inr m, s')
    /\ dom m = list_to_set (answered (capped res k) os)
    /\ (size m <= Z.to_nat k)%nat.
Proof.
  intros Hk Hrun Hecho.
  rewrite bulk_lookups by exact Hk. rewrite Hrun.
  eexists. split; [reflexivity |]. split.
  - rewrite foldl_store_dom, dom_empty_L, (left_id_L ∅ (∪)).
    rewrite (found_when_echoed _ _ Hecho). reflexivity.
  - etransitivity; [apply foldl_store_size |].
    destruct (lookups_requests _ _ _ _ _ _ Hrun) as (_ & _ & Hall).
    destruct (Hall os eq_refl) as [_ Hlen].
    rewrite map_size_empty, Hlen. unfold capped.
    rewrite length_fmap, length_take. lia.
Qed.

End ClientMore.

(** ** The further properties on the sample providers *)

Section ClientMoreExamples.

Import Sample.

Lemma bulk_get_ipwhois_sequential_witness :
  0 <= 1
  /\ bulk_get_ipwhois (table_get echoing) parse_ip_only two_resolutions 1 start =
     match lookups (table_get echoing) parse_ip_only (capped two_resolutions 1) start with
     | (inl e, s') => (inl e, s')
     | (inr os, s') => (inr (foldl store ∅ os), s')
     end.
Proof.
  split; [lia |].
  apply (bulk_get_ipwhois_sequential (table_get echoing) parse_ip_only
           two_resolutions 1 start).
  lia.
Defined.

Lemma bulk_get_ipwhois_uncapped_witness :
  (-1 < 0 \/ Z.of_nat (length (data two_resolutions)) <= -1)
  /\ bulk_get_ipwhois (table_get echoing_both) parse_ip_only two_resolutions (-1) start =
     match lookups (table_get echoing_both) parse_ip_only
             ((fun r => ip_address (attributes r)) <$> data two_resolutions) start with
     | (inl e, s') => (inl e, s')
     | (inr os, s') => (inr (foldl store ∅ os), s')
     end.
Proof.
  split; [left; lia |].
  apply (bulk_get_ipwhois_uncapped (table_get echoing_both) parse_ip_only
           two_resolutions (-1) start).
  left. lia.
Defined.

Lemma get_ipwhois_success_flag_witness :
  get_ipwhois (table_get [("/1.1.1.1", inr (Some truthy_body))]) parse_ip_only
    "1.1.1.1" start
  = (inr None, {| world := (); requests := requests start ++ ["/1.1.1.1"] |}).
Proof.
  apply (get_ipwhois_success_flag
           (table_get [("/1.1.1.1", inr (Some truthy_body))]) parse_ip_only
           "1.1.1.1" start truthy_body ()).
  - reflexivity.
  - vm_compute. intros [=].
Defined.

Lemma bulk_last_record_wins_witness :
  exists m,
    bulk_get_ipwhois (table_get colliding) parse_ip_only two_resolutions 2 start
      = (inr m, {| world := (); requests := ["/1.1.1.1"; "/2.2.2.2"] |})
    /\ m !! ip (record_with_isp "9.9.9.9" "Second")
       = Some (record_with_isp "9.9.9.9" "Second").
Proof.
  apply (bulk_last_record_wins (table_get colliding) parse_ip_only
           two_resolutions 2 start
           [Some (record_with_isp "9.9.9.9" "First");
            Some (record_with_isp "9.9.9.9" "Second")]
           {| world := (); requests := ["/1.1.1.1"; "/2.2.2.2"] |}
           [record_with_isp "9.9.9.9" "First"]
           (record_with_isp "9.9.9.9" "Second") []).
  - lia.
  - vm_compute; reflexivity.
  - reflexivity.
  - apply Forall_nil_2.
Defined.

Lemma single_get_ipwhois_as_bulk_witness :
  single_get_ipwhois (table_get echoing) parse_ip_only "1.1.1.1" start
  = bulk_get_ipwhois (table_get echoing) parse_ip_only one_resolution 1 start.
Proof.
  apply (single_get_ipwhois_as_bulk (table_get echoing) parse_ip_only
           "1.1.1.1" one_resolution (resolution "1.1.1.1" 1700000000) 1 start).
  - reflexivity.
  - reflexivity.
  - lia.
  - intros w s' E. vm_compute in E. injection E as <- _. reflexivity.
Defined.

Lemma bulk_size_distinct_witness :
  exists m,
    bulk_get_ipwhois (table_get echoing_both) parse_ip_only two_resolutions 2 start
      = (inr m, {| world := (); requests := ["/1.1.1.1"; "/2.2.2.2"] |})
    /\ size m = length (found [Some (record_of "1.1.1.1"); Some (record_of "2.2.2.2")]).
Proof.
  apply (bulk_size_distinct (table_get echoing_both) parse_ip_only
           two_resolutions 2 start
           [Some (record_of "1.1.1.1"); Some (record_of "2.2.2.2")]).
  - lia.
  - vm_compute; reflexivity.
  - change (NoDup ["1.1.1.1"; "2.2.2.2"]). apply NoDup_cons. split.
    + rewrite list_elem_of_singleton. intros [=].
    + apply NoDup_singleton.
Defined.

Lemma bulk_get_ipwhois_invalid_body_witness :
  bulk_get_ipwhois (table_get malformed_first) parse_ip_only two_resolutions 2 start
  = (inl ValidationError, {| world := (); requests := [] ++ ["/1.1.1.1"] |}).
Proof.
  apply (bulk_get_ipwhois_invalid_body (table_get malformed_first) parse_ip_only
           two_resolutions 2 start [] (resolution "1.1.1.1" 1700000000)
           [resolution "2.2.2.2" 1600000000] [] start malformed_body
           ValidationError ()).
  - reflexivity.
  - simpl; lia.
  - reflexivity.
  - reflexivity.
  - vm_compute; reflexivity.
  - vm_compute; reflexivity.
Defined.

Lemma bulk_keys_when_echoed_witness :
  exists m,
    bulk_get_ipwhois (table_get echoing) parse_ip_only two_resolutions 2 start
      = (inr m, {| world := (); requests := ["/1.1.1.1"; "/2.2.2.2"] |})
    /\ dom m = list_to_set (answered (capped two_resolutions 2)
                              [Some (record_of "1.1.1.1"); None])
    /\ (size m <= Z.to_nat 2)%nat.
Proof.
  apply (bulk_keys_when_echoed (table_get echoing) parse_ip_only
           two_resolutions 2 start [Some (record_of "1.1.1.1"); None]).
  - lia.
  - vm_compute; reflexivity.
  - change (capped two_resolutions 2) with ["1.1.1.1"; "2.2.2.2"].
    constructor; [intros w [= <-]; reflexivity |].
    constructor; [intros w [=] |]. constructor.
Defined.

End ClientMoreExamples.

(** * Further properties of the views *)

Section TableFacts.

(** A row is in the table exactly when it was handed over with a
    value. *)
Lemma _gen_table_row (params : list row) f v :
  (f, v) ∈ _gen_table params <-> (f, Some v) ∈ params.
Proof.
  unfold _gen_table. rewrite list_elem_of_omap. split.
  - intros ([f' [v' |]] & Hin & E); simpl in E; [| discriminate].
    injection E as -> ->. exact Hin.
  - intros Hin. exists (f, Some v). split; [exact Hin | reflexivity].
Qed.

(** A label of the table is the label of a row that has a value. *)
Lemma _gen_table_label (params : list row) l :
  l ∈ fst <$> _gen_table params <-> exists v, (l, Some v) ∈ params.
Proof.
  rewrite list_elem_of_fmap. split.
  - intros ([f v] & -> & Hin). exists v. apply _gen_table_row. exact Hin.
  - intros (v & Hin). exists (l, v). split; [reflexivity |].
    apply _gen_table_row. exact Hin.
Qed.

(** The table keeps the order of the rows. *)
Lemma _gen_table_sublist (params : list row) :
  fst <$> _gen_table params `sublist_of` fst <$> params.
Proof.
  induction params as [| [f [v |]] params IH].
  - apply sublist_nil.
  - apply sublist_skip. exact IH.
  - apply sublist_cons. exact IH.
Qed.

End TableFacts.

Section ViewMore.

Context `{BaseView}.

Lemma resolutions_loop_extends v len rest : forall idx content,
  exists tail, resolutions_loop v len idx rest content = content ++ tail.
Proof.
  induction rest as [| r rest IH]; intros idx content; simpl resolutions_loop.
  - exists []. rewrite app_nil_r. reflexivity.
  - destruct (decide (idx = max_resolutions v)) as [_ | _].
    + exists []. rewrite app_nil_r. reflexivity.
    + destruct (decide _) as [_ | _];
        match goal with
        | |- context [resolutions_loop v len ?i rest ?c] =>
            destruct (IH i c) as (tail & ->)
        end; rewrite <- !app_assoc; eexists; reflexivity.
Qed.

(** Past the cap the loop never breaks and inserts no blank line. *)
Lemma resolutions_loop_past_cap v len rest : forall idx content,
  max_resolutions v < idx ->
  resolutions_loop v len idx rest content =
  content ++ (RInfo <$> (resolution_info (dv_ip_enrich v) <$> rest)).
Proof.
  induction rest as [| r rest IH]; intros idx content Hidx; simpl resolutions_loop.
  - rewrite app_nil_r. reflexivity.
  - destruct (decide (idx = max_resolutions v)) as [E | _]; [lia |].
    destruct (decide _) as [[H1 _] | _]; [lia |].
    rewrite IH by lia. rewrite <- app_assoc. reflexivity.
Qed.

Lemma resolutions_content_nil v res :
  resolutions_content v res = [] <->
  (data res = [] \/ max_resolutions v = 0)
  /\ count (meta res) <= max_resolutions v.
Proof.
  unfold resolutions_content.
  destruct (decide (max_resolutions v < count (meta res))) as [Hlt | Hge].
  - split; [| lia]. intros E. apply app_eq_nil in E as [_ E]. discriminate.
  - destruct (data res) as [| r rest] eqn:D.
    + simpl. split; [intros _; split; [left; reflexivity | lia] | reflexivity].
    + simpl resolutions_loop. destruct (decide (0 = max_resolutions v)) as [E | N].
      * split; [intros _; split; [right; symmetry; exact E | lia] | reflexivity].
      * split.
        -- destruct (decide _) as [_ | _];
             match goal with
             | |- context [resolutions_loop v ?n ?i rest ?c] =>
                 destruct (resolutions_loop_extends v n rest i c) as (tail & ->)
             end; intros E; apply app_eq_nil in E as [E _]; discriminate.
        -- intros [[E | E] _]; [discriminate | lia].
Qed.

Lemma domain_panel_body v :
  body (domain_panel v) =
  BInfo
    {| info_body :=
         _gen_table
           [ (CStr "Analysis:",
              Some (CText (_gen_vt_analysis_stats
                             (last_analysis_stats (domain_attributes (dv_entity v)))
                             (Some (_vendors_who_flagged_malicious
                                      (EDomain (dv_entity v)))))));
             (CStr "Reputation:",
              Some (CText (_gen_vt_reputation
                             (reputation (domain_attributes (dv_entity v))))));
             (CStr "Popularity:",
              CText <$> _gen_vt_popularity
                          (popularity_ranks (domain_attributes (dv_entity v))));
             (CStr "Categories:",
              match categories (domain_attributes (dv_entity v)) with
              | [] => None
              | cs => smart_join (Some theme_tags) (Some <$> cs)
              end);
             (CStr "Last Modified:",
              CStr <$> iso_date
                         (opt_int (last_modification_date
                                     (domain_attributes (dv_entity v)))));
             (CStr "Last Seen:",
              CStr <$> iso_date
                         (opt_int (last_dns_records_date
                                     (domain_attributes (dv_entity v))))) ];
       info_heading :=
         _gen_heading_text (id_ (dv_entity v))
           (vt_gui_baseurl_domain +:+ "/" +:+ id_ (dv_entity v)) |}.
Proof. reflexivity. Qed.

Ltac row_cases Hin :=
  rewrite ?elem_of_cons, ?elem_of_nil in Hin;
  repeat (destruct Hin as [Hin | Hin]; [try discriminate Hin |]);
  try contradiction.

(** ** The resolutions panel at its edges *)

(** X9: there is no resolutions panel exactly when there are no
    resolutions at all, or when nothing is rendered (none fetched, or a cap
    of 0) and the total count does not exceed the cap.  So a cap of 0 with
    a positive total still gives a panel, made of the "+N more" text
    alone. *)
Theorem resolutions_panel_none_iff v :
  resolutions_panel v = None <->
  match dv_resolutions v with
  | None => True
  | Some res =>
      (data res = [] \/ max_resolutions v = 0)
      /\ count (meta res) <= max_resolutions v
  end.
Proof.
  unfold resolutions_panel. destruct (dv_resolutions v) as [res |]; [| tauto].
  rewrite <- resolutions_content_nil.
  destruct (resolutions_content v res); split; intros E;
    try reflexivity; discriminate.
Qed.

(** X10: the number in the "+N more" text counts from the cap, not from
    what was rendered: for [0 <= max_resolutions < total_count] the entries
    rendered and N add up to the total count exactly when at least
    [max_resolutions] resolutions were fetched. *)
Theorem more_text_counts_from_cap v res :
  0 <= max_resolutions v ->
  max_resolutions v < count (meta res) ->
  markers (resolutions_content v res)
    = [more_text (count (meta res) - max_resolutions v)]
  /\ (Z.of_nat (length (entries (resolutions_content v res)))
      + (count (meta res) - max_resolutions v) = count (meta res)
      <-> max_resolutions v <= Z.of_nat (length (data res))).
Proof.
  intros Hm Hlt. rewrite resolutions_content_shape by exact Hm.
  rewrite markers_app, entries_app, markers_intersperse, entries_intersperse.
  destruct (decide _) as [_ | N]; [| contradiction]. simpl.
  split; [reflexivity |].
  rewrite app_nil_r, length_fmap, length_take. lia.
Qed.

(** X11: with a negative cap every fetched resolution is rendered, in
    order, with no blank line between the entries; the "+N more" text
    follows when the cap is below the total count. *)
Theorem resolutions_panel_negative_cap v res :
  max_resolutions v < 0 ->
  resolutions_content v res =
  (RInfo <$> (resolution_info (dv_ip_enrich v) <$> data res))
  ++ (if decide (max_resolutions v < count (meta res))
      then [RText (more_text (count (meta res) - max_resolutions v))]
      else []).
Proof.
  intros Hm. unfold resolutions_content.
  rewrite resolutions_loop_past_cap by lia. simpl app.
  destruct (decide _); [reflexivity | rewrite app_nil_r; reflexivity].
Qed.

(** ** The rows of an entry *)

Ltac pick_row :=
  repeat first [apply list_elem_of_here | apply list_elem_of_further].

Lemma ip_panel_body v :
  body (ip_panel v) =
  BInfo {| info_body := _gen_table (ip_data v);
           info_heading :=
             _gen_heading_text (ip_id_ (iv_entity v))
               (vt_gui_baseurl_ip +:+ "/" +:+ ip_id_ (iv_entity v)) |}.
Proof. reflexivity. Qed.

Lemma resolution_data_rows enrich r :
  resolution_data enrich r =
  base_rows r
  ++ enrich_rows (ip_address (attributes r))
       (_get_ip_enrichment enrich (ip_address (attributes r))).
Proof. reflexivity. Qed.

Lemma enrich_rows_labels a e :
  fst <$> enrich_rows a e `sublist_of` enrichment_labels a.
Proof.
  destruct e as [[w | sh] |]; simpl.
  - repeat apply sublist_skip. apply sublist_nil_l.
  - reflexivity.
  - apply sublist_nil_l.
Qed.

(** X12: the panel of an address that is not in the enrichment map shows
    the analysis and the reputation, and besides them at most the
    last-modified date: no enrichment field. *)
Theorem ip_panel_unenriched v :
  _get_ip_enrichment (iv_ip_enrich v) (ip_id_ (iv_entity v)) = None ->
  (exists i,
      body (ip_panel v) = BInfo i
      /\ (CStr "Analysis:",
          CText (_gen_vt_analysis_stats
                   (ip_last_analysis_stats (ip_attributes (iv_entity v)))
                   (Some (_vendors_who_flagged_malicious (EIpAddress (iv_entity v))))))
         ∈ info_body i
      /\ (CStr "Reputation:",
          CText (_gen_vt_reputation (ip_reputation (ip_attributes (iv_entity v)))))
         ∈ info_body i)
  /\ (forall l a,
        l ∈ panel_labels (ip_panel v) ->
        l ∈ [CStr "Analysis:"; CStr "Reputation:"; CStr "Last Modified:"]
        /\ l ∉ enrichment_labels a).
Proof.
  intros Habs.
  assert (D : ip_data v =
              [ (CStr "Analysis:",
                 Some (CText (_gen_vt_analysis_stats
                                (ip_last_analysis_stats (ip_attributes (iv_entity v)))
                                (Some (_vendors_who_flagged_malicious
                                         (EIpAddress (iv_entity v)))))));
                (CStr "Reputation:",
                 Some (CText (_gen_vt_reputation
                                (ip_reputation (ip_attributes (iv_entity v))))));
                (CStr "Last Modified:",
                 CStr <$> iso_date
                            (opt_int (ip_last_modification_date
                                        (ip_attributes (iv_entity v))))) ]).
  { unfold ip_data. cbv zeta. rewrite Habs. apply app_nil_r. }
  split.
  - eexists. split; [apply ip_panel_body |]. cbn [info_body]. rewrite D.
    split; apply _gen_table_row; pick_row.
  - intros l a Hl. unfold panel_labels in Hl. rewrite ip_panel_body in Hl.
    cbn [info_body] in Hl. rewrite D in Hl. apply _gen_table_labels in Hl.
    simpl in Hl. rewrite !elem_of_cons, elem_of_nil in Hl.
    unfold enrichment_labels, variant_only_labels. simpl.
    rewrite !elem_of_cons, !elem_of_nil.
    destruct Hl as [-> | [-> | [-> | []]]];
      (split; [tauto |]); intros Hbad;
      repeat (destruct Hbad as [Hbad | Hbad]; [discriminate |]);
      exact Hbad.
Qed.

(** X13: the entry of a resolution whose address has an [IpWhois] record
    always shows the ASN row, reading "asn (org)"; it shows an ISP row
    only with the ISP of the record, and it shows that row whenever the
    record has an ISP that is not the empty string. *)
Theorem ipwhois_record_rows root r w :
  root !! ip_address (attributes r) = Some w ->
  (CStr "ASN:",
   CStr (pretty (conn_asn (connection w)) +:+ " (" +:+ conn_org (connection w) +:+ ")"))
    ∈ info_body (resolution_info (IpWhoisMap root) r)
  /\ (forall i,
        ((CStr "ISP:", CStr i) ∈ info_body (resolution_info (IpWhoisMap root) r)
         -> conn_isp (connection w) = Some i)
        /\ (conn_isp (connection w) = Some i -> i <> "" ->
            (CStr "ISP:", CStr i) ∈ info_body (resolution_info (IpWhoisMap root) r))).
Proof.
  intros Hw.
  assert (D : resolution_data (IpWhoisMap root) r =
              base_rows r ++ enrich_rows (ip_address (attributes r)) (Some (EIpWhois w))).
  { rewrite resolution_data_rows. simpl _get_ip_enrichment. rewrite Hw. reflexivity. }
  rewrite resolution_info_body, D. split.
  - apply _gen_table_row. apply elem_of_app. right. pick_row.
  - intros i. rewrite _gen_table_row, elem_of_app. split.
    + intros [Hin | Hin].
      * unfold base_rows in Hin. row_cases Hin.
      * cbn [enrich_rows] in Hin. row_cases Hin.
        injection Hin as Hin. destruct (conn_isp (connection w)); [| discriminate].
        injection Hin as ->. reflexivity.
    + intros E _. right. cbn [enrich_rows]. rewrite E. pick_row.
Qed.

(** X14: the entry of a resolution whose address has a Shodan record
    shows the Tags row only for a non-empty tag list, the ASN row only for
    a non-empty ASN and the OS row only when the record has an OS; it
    shows the OS row whenever the OS is not the empty string. *)
Theorem shodan_optional_rows root r sh :
  root !! ip_address (attributes r) = Some sh ->
  (CStr "Tags:" ∈ fst <$> info_body (resolution_info (ShodanIpMap root) r) ->
   sh_tags sh <> [])
  /\ (CStr "ASN:" ∈ fst <$> info_body (resolution_info (ShodanIpMap root) r) ->
      truthy (sh_asn sh) = true)
  /\ (CStr "OS:" ∈ fst <$> info_body (resolution_info (ShodanIpMap root) r) ->
      is_Some (sh_os sh))
  /\ (forall o, sh_os sh = Some o -> o <> "" ->
      (CStr "OS:", CStr o) ∈ info_body (resolution_info (ShodanIpMap root) r)).
Proof.
  intros Hsh.
  assert (D : resolution_data (ShodanIpMap root) r =
              base_rows r ++ enrich_rows (ip_address (attributes r)) (Some (EShodan sh))).
  { rewrite resolution_data_rows. simpl _get_ip_enrichment. rewrite Hsh. reflexivity. }
  rewrite resolution_info_body, D. split; [| split; [| split]].
  - intros Hl. apply _gen_table_label in Hl as (v & Hin).
    apply elem_of_app in Hin as [Hin | Hin].
    + unfold base_rows in Hin. row_cases Hin.
    + cbn [enrich_rows] in Hin. row_cases Hin.
      injection Hin as Hin. destruct (sh_tags sh); [discriminate | discriminate].
  - intros Hl. apply _gen_table_label in Hl as (v & Hin).
    apply elem_of_app in Hin as [Hin | Hin].
    + unfold base_rows in Hin. row_cases Hin.
    + cbn [enrich_rows] in Hin. row_cases Hin.
      injection Hin as Hin. destruct (truthy (sh_asn sh)); [reflexivity | discriminate].
  - intros Hl. apply _gen_table_label in Hl as (v & Hin).
    apply elem_of_app in Hin as [Hin | Hin].
    + unfold base_rows in Hin. row_cases Hin.
    + cbn [enrich_rows] in Hin. row_cases Hin.
      injection Hin as Hin. destruct (sh_os sh) as [o |]; [eexists; reflexivity | discriminate].
  - intros o Ho _. apply _gen_table_row.
    apply elem_of_app. right. cbn [enrich_rows]. rewrite Ho. pick_row.
Qed.

(** X15: the fields of an entry come in one fixed order, each at most
    once: analysis, resolved date, then ASN, ISP, location, OS, services,
    tags, last scan, for a resolution; analysis, reputation, last-modified
    date, then the same enrichment fields, for the address panel. *)
Theorem entry_label_order enrich r (v : IpAddressView) :
  fst <$> info_body (resolution_info enrich r)
    `sublist_of` CStr "Analysis:" :: CStr "Resolved:"
                 :: enrichment_labels (ip_address (attributes r))
  /\ panel_labels (ip_panel v)
    `sublist_of` CStr "Analysis:" :: CStr "Reputation:" :: CStr "Last Modified:"
                 :: enrichment_labels (ip_id_ (iv_entity v)).
Proof.
  split.
  - rewrite resolution_info_body.
    etransitivity; [apply _gen_table_sublist |].
    rewrite resolution_data_rows, fmap_app.
    change (fst <$> base_rows r) with [CStr "Analysis:"; CStr "Resolved:"].
    cbn [app]. do 2 apply sublist_skip. apply enrich_rows_labels.
  - unfold panel_labels. rewrite ip_panel_body. cbn [info_body].
    etransitivity; [apply _gen_table_sublist |].
    unfold ip_data. cbv zeta. rewrite fmap_app.
    match goal with
    | |- (fst <$> ?base) ++ _ `sublist_of` _ =>
        change (fst <$> base)
          with [CStr "Analysis:"; CStr "Reputation:"; CStr "Last Modified:"]
    end.
    cbn [app]. do 3 apply sublist_skip. apply enrich_rows_labels.
Qed.

(** X16: the entity panel of a domain always shows the analysis and the
    reputation; it shows categories only when the domain has some; its
    fields come in the order analysis, reputation, popularity, categories,
    last modified, last seen. *)
Theorem domain_panel_rows v :
  (exists i,
      body (domain_panel v) = BInfo i
      /\ (CStr "Analysis:",
          CText (_gen_vt_analysis_stats
                   (last_analysis_stats (domain_attributes (dv_entity v)))
                   (Some (_vendors_who_flagged_malicious (EDomain (dv_entity v))))))
         ∈ info_body i
      /\ (CStr "Reputation:",
          CText (_gen_vt_reputation (reputation (domain_attributes (dv_entity v)))))
         ∈ info_body i)
  /\ (CStr "Categories:" ∈ panel_labels (domain_panel v) ->
      categories (domain_attributes (dv_entity v)) <> [])
  /\ panel_labels (domain_panel v)
     `sublist_of` CStr <$> [ "Analysis:"; "Reputation:"; "Popularity:";
                            "Categories:"; "Last Modified:"; "Last Seen:" ].
Proof.
  split; [| split].
  - eexists. split; [apply domain_panel_body |]. cbn [info_body].
    split; apply _gen_table_row; pick_row.
  - unfold panel_labels. rewrite domain_panel_body. cbn [info_body].
    intros Hl. apply _gen_table_label in Hl as (val & Hin). row_cases Hin.
    injection Hin as Hin.
    destruct (categories (domain_attributes (dv_entity v))); [discriminate | discriminate].
  - unfold panel_labels. rewrite domain_panel_body. cbn [info_body].
    apply _gen_table_sublist.
Qed.

(** ** The two report flows *)

(** When the first resolution is rendered, it opens the content. *)
Lemma resolutions_content_head v res r rest :
  data res = r :: rest ->
  max_resolutions v <> 0 ->
  exists content,
    resolutions_content v res = RInfo (resolution_info (dv_ip_enrich v) r) :: content.
Proof.
  intros Hdata Hm. unfold resolutions_content. rewrite Hdata.
  simpl resolutions_loop.
  destruct (decide (0 = max_resolutions v)) as [E | _]; [congruence |].
  destruct (decide (0 < max_resolutions v - 1 /\ _)) as [_ | _];
    match goal with
    | |- context [resolutions_loop v ?n ?i rest ?c] =>
        destruct (resolutions_loop_extends v n rest i c) as (tail & ->)
    end;
    destruct (decide (max_resolutions v < count (meta res)));
    eexists; simpl; reflexivity.
Qed.

(** C9: the address flow assembles the entity panel and then the whois
    panel, when there is one, and nothing else: no panel of it is a
    resolutions panel.  The domain flow assembles the entity panel, then
    the resolutions panel, then the whois panel when there is one.  The
    resolutions panel is there whenever the view has resolutions with
    something to render, and then it holds their content: with a first
    resolution and a cap other than 0 it is the second panel and opens with
    the entry of that resolution; without resolutions the flow is the
    entity panel and the whois panel.  Either layout prints exactly these,
    in this order. *)
Theorem report_flows (vi : IpAddressView) (vd : DomainView) :
  ip_renderables vi = ip_panel vi :: option_list (iv_whois_panel vi)
  /\ (forall p, p ∈ ip_renderables vi ->
                p = ip_panel vi \/ iv_whois_panel vi = Some p)
  /\ title (ip_panel vi) = "ip"
  /\ title (domain_panel vd) = "virustotal"
  /\ domain_renderables vd =
     domain_panel vd
     :: match dv_resolutions vd with
        | None => []
        | Some res =>
            match resolutions_content vd res with
            | [] => []
            | content => [ {| title := "resolutions"; body := BGroup content |} ]
            end
        end
     ++ option_list (dv_whois_panel vd)
  /\ (forall res r rest,
        dv_resolutions vd = Some res ->
        data res = r :: rest ->
        max_resolutions vd <> 0 ->
        exists content,
          domain_renderables vd =
          domain_panel vd
          :: {| title := "resolutions";
                body := BGroup (RInfo (resolution_info (dv_ip_enrich vd) r) :: content) |}
          :: option_list (dv_whois_panel vd))
  /\ (dv_resolutions vd = None ->
      domain_renderables vd = domain_panel vd :: option_list (dv_whois_panel vd))
  /\ ip_print vi true = PrGroup (inl "" :: (inr <$> ip_renderables vi))
  /\ ip_print vi false = PrPadding (ip_renderables vi) (1, 0)
  /\ domain_print vd true = PrGroup (inl "" :: (inr <$> domain_renderables vd))
  /\ domain_print vd false = PrPadding (domain_renderables vd) (1, 0).
Proof.
  assert (Hi : ip_renderables vi = ip_panel vi :: option_list (iv_whois_panel vi)).
  { unfold ip_renderables, not_None. simpl.
    destruct (iv_whois_panel vi); reflexivity. }
  assert (Hd : domain_renderables vd =
               domain_panel vd
               :: match dv_resolutions vd with
                  | None => []
                  | Some res =>
                      match resolutions_content vd res with
                      | [] => []
                      | content =>
                          [ {| title := "resolutions"; body := BGroup content |} ]
                      end
                  end
               ++ option_list (dv_whois_panel vd)).
  { unfold domain_renderables, not_None, resolutions_panel. simpl.
    destruct (dv_resolutions vd) as [res |];
      [destruct (resolutions_content vd res) |];
      destruct (dv_whois_panel vd); reflexivity. }
  split; [exact Hi |]. split.
  { intros p Hp. rewrite Hi in Hp. apply elem_of_cons in Hp as [-> | Hp];
      [left; reflexivity | right].
    destruct (iv_whois_panel vi) as [q |]; simpl in Hp.
    - apply list_elem_of_singleton in Hp. rewrite Hp. reflexivity.
    - apply elem_of_nil in Hp. contradiction. }
  split; [reflexivity |]. split; [reflexivity |]. split; [exact Hd |]. split.
  { intros res r rest Hres Hdata Hm.
    destruct (resolutions_content_head vd res r rest Hdata Hm) as (content & Hc).
    exists content. rewrite Hd, Hres, Hc. reflexivity. }
  split.
  { intros Hnone. rewrite Hd, Hnone. reflexivity. }
  repeat split.
Qed.

End ViewMore.

(** * From the bulk operation to the resolutions panel *)

Section Pipeline.

Context {World : Type} `{BaseView}.
Variable http_get : World -> string -> (exn + option dict) * World.
Variable parse_obj : dict -> exn + IpWhois.

Lemma bulk_dom_when_echoed res k s os s' :
  0 <= k ->
  lookups http_get parse_obj (capped res k) s = (inr os, s') ->
  Forall2 (fun i o => forall w, o = Some w -> ip w = i) (capped res k) os ->
  bulk_get_ipwhois http_get parse_obj res k s = (inr (foldl store ∅ os), s')
  /\ dom (foldl store ∅ os) = list_to_set (answered (capped res k) os).
Proof.
  intros Hk Hrun Hecho. split.
  - rewrite bulk_lookups by exact Hk. rewrite Hrun. reflexivity.
  - rewrite foldl_store_dom, dom_empty_L, (left_id_L ∅ (∪)).
    rewrite (found_when_echoed _ _ Hecho). reflexivity.
Qed.

Lemma ipwhois_asn_row root r w :
  root !! ip_address (attributes r) = Some w ->
  (CStr "ASN:",
   CStr (pretty (conn_asn (connection w)) +:+ " (" +:+ conn_org (connection w) +:+ ")"))
    ∈ info_body (resolution_info (IpWhoisMap root) r).
Proof.
  intros Hw. rewrite resolution_info_body. apply _gen_table_row.
  rewrite resolution_data_rows. simpl _get_ip_enrichment. rewrite Hw.
  apply elem_of_app. right. apply list_elem_of_here.
Qed.

(** X17: with a provider that echoes the addresses it is asked about, a
    resolution whose address had no successful lookup within the cap, be
    it beyond the cap or without data, is rendered from the map of the
    bulk operation with the analysis and resolved-date rows alone. *)
Theorem unanswered_resolution_renders_bare res k s os s' r :
  0 <= k ->
  lookups http_get parse_obj (capped res k) s = (inr os, s') ->
  Forall2 (fun i o => forall w, o = Some w -> ip w = i) (capped res k) os ->
  ip_address (attributes r) ∉ answered (capped res k) os ->
  exists m,
    bulk_get_ipwhois http_get parse_obj res k s = (inr m, s')
    /\ info_body (resolution_info (IpWhoisMap m) r) = _gen_table (base_rows r).
Proof.
  intros Hk Hrun Hecho Hno.
  destruct (bulk_dom_when_echoed _ _ _ _ _ Hk Hrun Hecho) as [Hb Hd].
  eexists. split; [exact Hb |].
  assert (L : foldl store ∅ os !! ip_address (attributes r) = None).
  { apply not_elem_of_dom. rewrite Hd, elem_of_list_to_set. exact Hno. }
  rewrite resolution_info_body, resolution_data_rows.
  simpl _get_ip_enrichment. rewrite L. reflexivity.
Qed.

(** X18: with a provider that echoes the addresses it is asked about, a
    resolution whose address had a successful lookup within the cap finds
    a record of its own address in the map of the bulk operation, and its
    entry shows the ASN row of that record. *)
Theorem answered_resolution_renders_enriched res k s os s' r :
  0 <= k ->
  lookups http_get parse_obj (capped res k) s = (inr os, s') ->
  Forall2 (fun i o => forall w, o = Some w -> ip w = i) (capped res k) os ->
  ip_address (attributes r) ∈ answered (capped res k) os ->
  exists m w,
    bulk_get_ipwhois http_get parse_obj res k s = (inr m, s')
    /\ m !! ip_address (attributes r) = Some w
    /\ ip w = ip_address (attributes r)
    /\ (CStr "ASN:",
        CStr (pretty (conn_asn (connection w)) +:+ " ("
              +:+ conn_org (connection w) +:+ ")"))
       ∈ info_body (resolution_info (IpWhoisMap m) r).
Proof.
  intros Hk Hrun Hecho Hyes.
  destruct (bulk_dom_when_echoed _ _ _ _ _ Hk Hrun Hecho) as [Hb Hd].
  assert (L : is_Some (foldl store ∅ os !! ip_address (attributes r))).
  { apply elem_of_dom. rewrite Hd, elem_of_list_to_set. exact Hyes. }
  destruct L as [w L]. exists (foldl store ∅ os), w.
  split; [exact Hb |]. split; [exact L |]. split.
  - destruct (foldl_store_lookup _ _ _ _ L) as [L0 | [_ E]]; [| exact E].
    rewrite lookup_empty in L0. discriminate.
  - apply ipwhois_asn_row. exact L.
Qed.

End Pipeline.

(** ** The further properties on the sample views *)

Section ViewMoreExamples.

Import Sample.

Lemma more_text_counts_from_cap_witness :
  markers (resolutions_content (view_of two_of_five (IpWhoisMap ∅) 3) two_of_five)
    = [more_text (5 - 3)]
  /\ (Z.of_nat (length (entries (resolutions_content
                                   (view_of two_of_five (IpWhoisMap ∅) 3) two_of_five)))
      + (5 - 3) = 5
      <-> 3 <= Z.of_nat (length (data two_of_five))).
Proof.
  apply (more_text_counts_from_cap (view_of two_of_five (IpWhoisMap ∅) 3) two_of_five).
  - simpl; lia.
  - simpl; lia.
Defined.

Lemma resolutions_panel_negative_cap_witness :
  resolutions_content (domain_view (IpWhoisMap ∅) (-1)) two_resolutions =
  (RInfo <$> (resolution_info (IpWhoisMap ∅) <$> data two_resolutions))
  ++ (if decide (-1 < 2) then [RText (more_text (2 - -1))] else []).
Proof.
  apply (resolutions_panel_negative_cap (domain_view (IpWhoisMap ∅) (-1))
           two_resolutions).
  simpl; lia.
Defined.

Lemma ip_panel_unenriched_witness :
  exists i,
    body (ip_panel (ip_view (IpWhoisMap ∅))) = BInfo i
    /\ (CStr "Analysis:",
        CText (_gen_vt_analysis_stats
                 (ip_last_analysis_stats
                    (ip_attributes (iv_entity (ip_view (IpWhoisMap ∅)))))
                 (Some (_vendors_who_flagged_malicious
                          (EIpAddress (iv_entity (ip_view (IpWhoisMap ∅))))))))
       ∈ info_body i
    /\ (CStr "Reputation:",
        CText (_gen_vt_reputation
                 (ip_reputation (ip_attributes (iv_entity (ip_view (IpWhoisMap ∅)))))))
       ∈ info_body i.
Proof.
  apply (ip_panel_unenriched (ip_view (IpWhoisMap ∅))).
  reflexivity.
Defined.

Lemma ipwhois_record_rows_witness :
  (CStr "ASN:", CStr "13335 (Example Net)")
    ∈ info_body (resolution_info
                   (IpWhoisMap (<["1.1.1.1" := record_of "1.1.1.1"]> ∅))
                   (resolution "1.1.1.1" 1700000000)).
Proof.
  apply (ipwhois_record_rows (<["1.1.1.1" := record_of "1.1.1.1"]> ∅)
           (resolution "1.1.1.1" 1700000000) (record_of "1.1.1.1")).
  vm_compute; reflexivity.
Defined.

Lemma shodan_optional_rows_witness :
  (CStr "Tags:" ∈ fst <$> info_body (resolution_info
                                      (ShodanIpMap (<["1.1.1.1" := bare_host]> ∅))
                                      (resolution "1.1.1.1" 1700000000))
   -> sh_tags bare_host <> [])
  /\ (CStr "ASN:" ∈ fst <$> info_body (resolution_info
                                        (ShodanIpMap (<["1.1.1.1" := bare_host]> ∅))
                                        (resolution "1.1.1.1" 1700000000))
      -> truthy (sh_asn bare_host) = true)
  /\ (CStr "OS:" ∈ fst <$> info_body (resolution_info
                                       (ShodanIpMap (<["1.1.1.1" := bare_host]> ∅))
                                       (resolution "1.1.1.1" 1700000000))
      -> is_Some (sh_os bare_host))
  /\ (forall o, sh_os bare_host = Some o -> o <> "" ->
      (CStr "OS:", CStr o)
        ∈ info_body (resolution_info (ShodanIpMap (<["1.1.1.1" := bare_host]> ∅))
                       (resolution "1.1.1.1" 1700000000))).
Proof.
  apply (shodan_optional_rows (<["1.1.1.1" := bare_host]> ∅)
           (resolution "1.1.1.1" 1700000000) bare_host).
  vm_compute; reflexivity.
Defined.

Lemma unanswered_resolution_renders_bare_witness :
  exists m,
    bulk_get_ipwhois (table_get echoing) parse_ip_only two_resolutions 2 start
      = (inr m, {| world := (); requests := ["/1.1.1.1"; "/2.2.2.2"] |})
    /\ info_body (resolution_info (IpWhoisMap m) (resolution "2.2.2.2" 1600000000))
       = _gen_table (base_rows (resolution "2.2.2.2" 1600000000)).
Proof.
  apply (unanswered_resolution_renders_bare (table_get echoing) parse_ip_only
           two_resolutions 2 start [Some (record_of "1.1.1.1"); None]).
  - lia.
  - vm_compute; reflexivity.
  - change (capped two_resolutions 2) with ["1.1.1.1"; "2.2.2.2"].
    constructor; [intros w [= <-]; reflexivity |].
    constructor; [intros w [=] |]. constructor.
  - change (answered (capped two_resolutions 2) [Some (record_of "1.1.1.1"); None])
      with ["1.1.1.1"].
    rewrite list_elem_of_singleton. intros [=].
Defined.

Lemma answered_resolution_renders_enriched_witness :
  exists m w,
    bulk_get_ipwhois (table_get echoing) parse_ip_only two_resolutions 2 start
      = (inr m, {| world := (); requests := ["/1.1.1.1"; "/2.2.2.2"] |})
    /\ m !! ip_address (attributes (resolution "1.1.1.1" 1700000000)) = Some w
    /\ ip w = ip_address (attributes (resolution "1.1.1.1" 1700000000))
    /\ (CStr "ASN:",
        CStr (pretty (conn_asn (connection w)) +:+ " ("
              +:+ conn_org (connection w) +:+ ")"))
       ∈ info_body (resolution_info (IpWhoisMap m) (resolution "1.1.1.1" 1700000000)).
Proof.
  apply (answered_resolution_renders_enriched (table_get echoing) parse_ip_only
           two_resolutions 2 start [Some (record_of "1.1.1.1"); None]).
  - lia.
  - vm_compute; reflexivity.
  - change (capped two_resolutions 2) with ["1.1.1.1"; "2.2.2.2"].
    constructor; [intros w [= <-]; reflexivity |].
    constructor; [intros w [=] |]. constructor.
  - change (answered (capped two_resolutions 2) [Some (record_of "1.1.1.1"); None])
      with ["1.1.1.1"].
    apply list_elem_of_here.
Defined.

End ViewMoreExamples.

(** * The resolutions panel when helpers may raise *)

Section RaisingFacts.

Context {helpers : Raising.Helpers}.

(** With helpers that never raise, the panel is the one of [Views]. *)
Lemma never_raising_enrich_rows (B : BaseView) a e :
  Raising.enrich_rows (helpers := never_raising B) a e = inr (enrich_rows a e).
Proof. destruct e as [[w | sh] |]; reflexivity. Qed.

Lemma never_raising_resolution_info (B : BaseView) enrich r :
  Raising.resolution_info (helpers := never_raising B) enrich r
  = inr (resolution_info enrich r).
Proof.
  unfold Raising.resolution_info. cbn [never_raising Raising._gen_vt_analysis_stats
    Raising._gen_heading_text Raising.iso_date Raising.and_then].
  rewrite never_raising_enrich_rows. reflexivity.
Qed.

Lemma never_raising_resolutions_loop (B : BaseView) v len rest : forall idx content,
  Raising.resolutions_loop (helpers := never_raising B) v len idx rest content
  = inr (resolutions_loop v len idx rest content).
Proof.
  induction rest as [| r rest IH]; intros idx content; [reflexivity |].
  simpl. destruct (decide (idx = max_resolutions v)); [reflexivity |].
  rewrite never_raising_resolution_info. simpl. apply IH.
Qed.

Lemma never_raising_resolutions_content (B : BaseView) v res :
  Raising.resolutions_content (helpers := never_raising B) v res
  = inr (resolutions_content v res).
Proof.
  unfold Raising.resolutions_content, resolutions_content.
  rewrite never_raising_resolutions_loop. cbn [Raising.and_then].
  destruct (decide _); reflexivity.
Qed.

Lemma never_raising_resolutions_panel (B : BaseView) v :
  Raising.resolutions_panel (helpers := never_raising B) v
  = inr (resolutions_panel v).
Proof.
  unfold Raising.resolutions_panel, resolutions_panel.
  destruct (dv_resolutions v) as [res |]; [| reflexivity].
  rewrite never_raising_resolutions_content. cbn [Raising.and_then].
  destruct (resolutions_content v res); reflexivity.
Qed.

(** The entry of a resolution without enrichment needs the analysis, the
    heading and the resolved date, and nothing else. *)
Lemma resolution_info_unenriched enrich r a h d :
  _get_ip_enrichment enrich (ip_address (attributes r)) = None ->
  Raising._gen_vt_analysis_stats
    (ip_address_last_analysis_stats (attributes r)) None = inr a ->
  Raising._gen_heading_text (ip_address (attributes r))
    (Raising.vt_gui_baseurl_ip +:+ "/" +:+ ip_address (attributes r)) = inr h ->
  Raising.iso_date (PInt (date (attributes r))) = inr d ->
  Raising.resolution_info enrich r =
  inr {| info_body :=
           _gen_table [ (CStr "Analysis:", Some (CText a));
                        (CStr "Resolved:", CStr <$> d) ];
         info_heading := h |}.
Proof.
  intros Habs Ha Hh Hd. unfold Raising.resolution_info.
  cbv zeta. rewrite Ha, Hh, Hd, Habs. reflexivity.
Qed.

Lemma entries_snoc_info content i :
  entries (content ++ [RInfo i]) = entries content ++ [i].
Proof. apply entries_app. Qed.

Lemma entries_snoc_blank content s :
  entries (content ++ [RStr s]) = entries content.
Proof. rewrite entries_app. apply app_nil_r. Qed.

(** What the loop has rendered when it returns: the entries of the
    resolutions before the cap, each built without raising. *)
Lemma raising_loop_entries v len rest : forall idx content c,
  0 <= idx <= max_resolutions v ->
  Raising.resolutions_loop v len idx rest content = inr c ->
  exists infos,
    Forall2 (fun r i => Raising.resolution_info (dv_ip_enrich v) r = inr i)
      (take (Z.to_nat (max_resolutions v - idx)) rest) infos
    /\ entries c = entries content ++ infos.
Proof.
  induction rest as [| r rest IH]; intros idx content c Hidx; simpl.
  - intros [= <-]. exists []. rewrite take_nil, app_nil_r. split; [constructor | reflexivity].
  - destruct (decide (idx = max_resolutions v)) as [E | N].
    + intros [= <-]. exists []. rewrite E, Z.sub_diag, app_nil_r.
      split; [constructor | reflexivity].
    + destruct (Raising.resolution_info (dv_ip_enrich v) r) as [e | i] eqn:Hi;
        [discriminate |].
      simpl. intros Hloop. apply IH in Hloop as (infos & Hall & He); [| lia].
      exists (i :: infos).
      replace (Z.to_nat (max_resolutions v - idx))
        with (S (Z.to_nat (max_resolutions v - (idx + 1)))) by lia.
      split; [constructor; [exact Hi | exact Hall] |].
      rewrite He. destruct (decide _);
        rewrite ?entries_snoc_blank, entries_snoc_info, <- app_assoc; reflexivity.
Qed.

(** Past the cap: the entries of all the resolutions left. *)
Lemma raising_loop_entries_past v len rest : forall idx content c,
  max_resolutions v < idx ->
  Raising.resolutions_loop v len idx rest content = inr c ->
  exists infos,
    Forall2 (fun r i => Raising.resolution_info (dv_ip_enrich v) r = inr i) rest infos
    /\ entries c = entries content ++ infos.
Proof.
  induction rest as [| r rest IH]; intros idx content c Hidx; simpl.
  - intros [= <-]. exists []. rewrite app_nil_r. split; [constructor | reflexivity].
  - destruct (decide (idx = max_resolutions v)) as [E | N]; [lia |].
    destruct (Raising.resolution_info (dv_ip_enrich v) r) as [e | i] eqn:Hi;
      [discriminate |].
    simpl. intros Hloop. apply IH in Hloop as (infos & Hall & He); [| lia].
    exists (i :: infos). split; [constructor; [exact Hi | exact Hall] |].
    rewrite He. destruct (decide _);
      rewrite ?entries_snoc_blank, entries_snoc_info, <- app_assoc; reflexivity.
Qed.

(** The loop raises only when an entry does. *)
Lemma raising_loop_builds v len rest : forall idx content,
  Forall (fun r => exists i, Raising.resolution_info (dv_ip_enrich v) r = inr i) rest ->
  exists c, Raising.resolutions_loop v len idx rest content = inr c.
Proof.
  induction rest as [| r rest IH]; intros idx content Hall; simpl.
  - eexists; reflexivity.
  - destruct (decide (idx = max_resolutions v)); [eexists; reflexivity |].
    apply Forall_cons in Hall as [(i & Hi) Hall]. rewrite Hi. simpl.
    apply IH. exact Hall.
Qed.

(** The entry at a rendered position is the one of the resolution at that
    position. *)
Lemma raising_content_entry v res content n r :
  Raising.resolutions_content v res = inr content ->
  data res !! n = Some r ->
  max_resolutions v < 0 \/ Z.of_nat n < max_resolutions v ->
  exists i, entries content !! n = Some i
            /\ Raising.resolution_info (dv_ip_enrich v) r = inr i.
Proof.
  unfold Raising.resolutions_content. intros Hc Hn Hcap.
  destruct (Raising.resolutions_loop v _ 0 (data res) []) as [e | c] eqn:Hloop;
    [discriminate |].
  simpl in Hc. injection Hc as <-.
  assert (He : exists infos,
             Forall2 (fun r i => Raising.resolution_info (dv_ip_enrich v) r = inr i)
               (if decide (max_resolutions v < 0) then data res
                else take (Z.to_nat (max_resolutions v)) (data res)) infos
             /\ entries c = infos).
  { destruct (decide (max_resolutions v < 0)) as [Hneg | Hpos].
    - apply raising_loop_entries_past in Hloop as (infos & Hall & He); [| lia].
      exists infos. split; [exact Hall | exact He].
    - apply raising_loop_entries in Hloop as (infos & Hall & He); [| lia].
      rewrite Z.sub_0_r in Hall. exists infos. split; [exact Hall | exact He]. }
  destruct He as (infos & Hall & He).
  assert (Hr : (if decide (max_resolutions v < 0) then data res
                else take (Z.to_nat (max_resolutions v)) (data res)) !! n = Some r).
  { destruct (decide (max_resolutions v < 0)); [exact Hn |].
    rewrite lookup_take_lt by lia. exact Hn. }
  destruct (Forall2_lookup_l _ _ _ _ _ Hall Hr) as (i & Hi & Hinfo).
  exists i. split; [| exact Hinfo].
  destruct (decide (max_resolutions v < count (meta res)));
    rewrite ?entries_app, He; simpl; rewrite ?app_nil_r; exact Hi.
Qed.

(** ** The claim about a resolution without enrichment *)

(** C8: let the resolution at position [n] be rendered (the cap is
    negative or beyond [n]), its address not be in the enrichment map, and
    the analysis, the heading and the resolved date of it be computed
    without raising, the date a non-empty text.  Then its entry is built,
    and it is the heading with a table of exactly two rows, the analysis
    and the resolved date: no enrichment field.  No helper of the
    enrichment fields is called for it.  In every panel that is built it is
    the entry at position [n]; the panel is never skipped; and the panel is
    built whenever the entry of each fetched resolution is, so that
    building fails only where building an entry does. *)
Theorem unenriched_resolution_entry v res n r a h d :
  dv_resolutions v = Some res ->
  data res !! n = Some r ->
  max_resolutions v < 0 \/ Z.of_nat n < max_resolutions v ->
  _get_ip_enrichment (dv_ip_enrich v) (ip_address (attributes r)) = None ->
  Raising._gen_vt_analysis_stats
    (ip_address_last_analysis_stats (attributes r)) None = inr a ->
  Raising._gen_heading_text (ip_address (attributes r))
    (Raising.vt_gui_baseurl_ip +:+ "/" +:+ ip_address (attributes r)) = inr h ->
  Raising.iso_date (PInt (date (attributes r))) = inr (Some d) ->
  d <> "" ->
  Raising.resolution_info (dv_ip_enrich v) r =
    inr {| info_body := [ (CStr "Analysis:", CText a); (CStr "Resolved:", CStr d) ];
           info_heading := h |}
  /\ (forall p,
        Raising.resolutions_panel v = inr (Some p) ->
        title p = "resolutions"
        /\ exists content,
             body p = BGroup content
             /\ entries content !! n =
                Some {| info_body := [ (CStr "Analysis:", CText a);
                                       (CStr "Resolved:", CStr d) ];
                        info_heading := h |})
  /\ Raising.resolutions_panel v <> inr None
  /\ (Forall (fun r' => exists i, Raising.resolution_info (dv_ip_enrich v) r' = inr i)
        (data res) ->
      exists p, Raising.resolutions_panel v = inr (Some p)).
Proof.
  intros Hres Hn Hcap Habs Ha Hh Hd _.
  assert (Hentry : Raising.resolution_info (dv_ip_enrich v) r =
                   inr {| info_body := [ (CStr "Analysis:", CText a);
                                         (CStr "Resolved:", CStr d) ];
                          info_heading := h |})
    by exact (resolution_info_unenriched _ _ _ _ _ Habs Ha Hh Hd).
  assert (Hat : forall content,
             Raising.resolutions_content v res = inr content ->
             entries content !! n =
             Some {| info_body := [ (CStr "Analysis:", CText a);
                                    (CStr "Resolved:", CStr d) ];
                     info_heading := h |}).
  { intros content Hc.
    destruct (raising_content_entry _ _ _ _ _ Hc Hn Hcap) as (i & Hi & Hinfo).
    rewrite Hentry in Hinfo. injection Hinfo as <-. exact Hi. }
  split; [exact Hentry |]. unfold Raising.resolutions_panel. rewrite Hres.
  split; [| split].
  - intros p Hp.
    destruct (Raising.resolutions_content v res) as [e | content] eqn:Hc;
      [discriminate |].
    simpl in Hp. destruct content as [| x content]; [discriminate |].
    injection Hp as <-. split; [reflexivity |].
    exists (x :: content). split; [reflexivity |]. apply Hat. reflexivity.
  - destruct (Raising.resolutions_content v res) as [e | content] eqn:Hc;
      [discriminate |].
    simpl. destruct content as [| x content]; [| discriminate].
    specialize (Hat [] eq_refl). discriminate.
  - intros Hall. unfold Raising.resolutions_content in *.
    destruct (raising_loop_builds v (Z.of_nat (length (data res))) (data res) 0 [] Hall)
      as (c & Hc).
    rewrite Hc in *. simpl in *.
    match goal with
    | |- context [match ?content with [] => None | _ => _ end] =>
        destruct content as [| x content'] eqn:E
    end.
    + specialize (Hat [] eq_refl). discriminate.
    + eexists; reflexivity.
Qed.

End RaisingFacts.

Section RaisingExamples.

Import Sample.

Lemma unenriched_resolution_entry_witness :
  Raising.resolution_info (helpers := geolocation_helpers) (ShodanIpMap ∅)
    (resolution "2.2.2.2" 1600000000) =
  inr {| info_body := [ (CStr "Analysis:", CText (text "0 malicious"));
                        (CStr "Resolved:", CStr "1600000000") ];
         info_heading := text "2.2.2.2" |}.
Proof.
  apply (unenriched_resolution_entry (helpers := geolocation_helpers)
           (domain_view (ShodanIpMap ∅) 2) two_resolutions 1%nat
           (resolution "2.2.2.2" 1600000000)
           (text "0 malicious") (text "2.2.2.2") "1600000000").
  - reflexivity.
  - reflexivity.
  - right. simpl. lia.
  - reflexivity.
  - vm_compute; reflexivity.
  - reflexivity.
  - vm_compute; reflexivity.
  - intros [=].
Defined.

End RaisingExamples.
